(** * Document scanner: geometry pipeline and burst capture

    A shallow embedding of [document_processor.py] (class
    [DocumentProcessor]) and [camera_handler.py] (class [CameraHandler]).

    Modelling conventions.
    - A NumPy [uint8] image is an [ndarray]: a two-dimensional [plane]
      (shape [(h, w)]) or a three-dimensional [cube] (shape [(h, w, c)]),
      stored row by row.
    - Contour points are integer pixel coordinates (OpenCV yields [int32]
      arrays), below 2^24, so that the [float32] array [rect] holds them
      exactly.  The side lengths of [correct_perspective] are [float32]
      computations (NumPy 2 keeps the type of a [float32] scalar through
      [** 2]): differences, squares, a sum and a square root, each rounded
      to 24 significant bits.  An operation whose exact result [float32]
      holds does not round, the sum is rounded to the nearest [float32]
      and [np.sqrt] returns the root rounded to the nearest [float32];
      [int_dist] follows the computation on every pair of points whose
      coordinate differences and their squares are held exactly, which
      includes every pair less than 4096 pixels apart.  On the other pairs
      a square is rounded, and how [** 2] rounds is the C library's
      matter: the integer root of the exact squared length stands in
      there.
    - A floating-point scalar (an area, a perimeter, a variance) is the
      rational number it denotes; the routines that produce one are fields
      of the interface, so that their rounding is the library's.
    - A Python exception is the [Raise] outcome of the [result] monad; a
      [try ... except] is a match on that outcome.
    - OpenCV routines whose pixel-level output is not fixed by the
      repository (blur, edge detection, contour extraction, polygon
      approximation, homography, resampling, ...) are the fields of the
      interface [Cv2]; thresholding, the median filter, channel
      replication and the Laplacian are written out. *)

From Stdlib Require Import List ZArith QArith Qround Lia Bool Arith Permutation Sorted.
From Stdlib Require String.
Import ListNotations.
Open Scope Z_scope.

(** ** Exceptions *)

Inductive exn : Type := CvError | IndexError | ValueError.

Inductive result (A : Type) : Type :=
| Ok (a : A)
| Raise (e : exn).
Arguments Ok {A} a.
Arguments Raise {A} e.

Definition bind {A B : Type} (m : result A) (k : A -> result B) : result B :=
  match m with
  | Ok a => k a
  | Raise e => Raise e
  end.

Declare Scope result_scope.
Delimit Scope result_scope with result.
Notation "x <- m ;; k" := (bind m (fun x => k))
  (at level 100, m at next level, right associativity) : result_scope.
Open Scope result_scope.

(** [l[i]] on a Python list or along the first axis of an array. *)
Definition index {A : Type} (l : list A) (i : nat) : result A :=
  match nth_error l i with
  | Some a => Ok a
  | None => Raise IndexError
  end.

(** ** NumPy reductions *)

Module Numpy.

(** [np.argmin]: index of the first occurrence of the smallest entry; the
    scan keeps the running best and replaces it on a strict improvement. *)
Fixpoint argmin_from (best_i : nat) (best_v : Z) (i : nat) (l : list Z) : nat :=
  match l with
  | [] => best_i
  | v :: l' =>
      if v <? best_v then argmin_from i v (S i) l'
      else argmin_from best_i best_v (S i) l'
  end.

Definition argmin (l : list Z) : result nat :=
  match l with
  | [] => Raise ValueError
  | v :: l' => Ok (argmin_from 0%nat v 1%nat l')
  end.

(** [np.argmax]: index of the first occurrence of the largest entry. *)
Fixpoint argmax_from (best_i : nat) (best_v : Z) (i : nat) (l : list Z) : nat :=
  match l with
  | [] => best_i
  | v :: l' =>
      if best_v <? v then argmax_from i v (S i) l'
      else argmax_from best_i best_v (S i) l'
  end.

Definition argmax (l : list Z) : result nat :=
  match l with
  | [] => Raise ValueError
  | v :: l' => Ok (argmax_from 0%nat v 1%nat l')
  end.

End Numpy.

(** ** Points and quadrilaterals *)

Definition point : Type := (Z * Z)%type.

Definition px (p : point) : Z := fst p.
Definition py (p : point) : Z := snd p.

(** The 4x2 array [rect] of [order_points], row by row. *)
Record Rect : Type := mkRect { tl : point; tr : point; br : point; bl : point }.

(** [pts.sum(axis=1)]: x + y of each row. *)
Definition psum (p : point) : Z := px p + py p.

(** [np.diff(pts, axis=1)]: second column minus first column, y - x. *)
Definition pdiff (p : point) : Z := py p - px p.

(** [DocumentProcessor.order_points]. *)
Definition order_points (pts : list point) : result Rect :=
  let s := map psum pts in
  i0 <- Numpy.argmin s ;;
  rect0 <- index pts i0 ;;
  i2 <- Numpy.argmax s ;;
  rect2 <- index pts i2 ;;
  let diff := map pdiff pts in
  i1 <- Numpy.argmin diff ;;
  rect1 <- index pts i1 ;;
  i3 <- Numpy.argmax diff ;;
  rect3 <- index pts i3 ;;
  Ok {| tl := rect0; tr := rect1; br := rect2; bl := rect3 |}.

(** [float32] values that are integers, and the [float32] square root. *)
Module Float32.

(** [float32] holds the integer [x]: its magnitude has at most 24
    significant bits. *)
Definition holds (x : Z) : bool :=
  let a := Z.abs x in
  let s := Z.log2 a - 23 in
  if s <=? 0 then true else a mod 2 ^ s =? 0.

(** The [float32] nearest to the integer [x >= 0], the even one of the two
    on a tie: the result of a [float32] addition whose exact sum is [x]. *)
Definition round (x : Z) : Z :=
  let s := Z.log2 x - 23 in
  if s <=? 0 then x
  else
    let m := x / 2 ^ s in
    let rest := x mod 2 ^ s in
    let half := 2 ^ (s - 1) in
    let up := (half <? rest) || ((rest =? half) && Z.odd m) in
    (if up then m + 1 else m) * 2 ^ s.

(** [np.sqrt (x)] for the [float32] that holds the integer [x >= 0]: the
    significand [m] and the exponent [e] of the result [m * 2 ^ e].  The
    root is first taken in units of 2^-26, rounded down to [q] (27 bits or
    more), and [q] is then rounded to 24 bits, to nearest and to even on a
    tie. *)
Definition sqrt (x : Z) : Z * Z :=
  let y := x * 2 ^ 52 in
  let q := Z.sqrt y in
  let inexact := negb (q * q =? y) in
  let s := Z.log2 q - 23 in
  let m := q / 2 ^ s in
  let rest := q mod 2 ^ s in
  let half := 2 ^ (s - 1) in
  let up := (half <? rest) || ((rest =? half) && (inexact || Z.odd m)) in
  (if up then m + 1 else m, s - 26).

(** [int (v)] for a non-negative [v = m * 2 ^ e]. *)
Definition trunc (v : Z * Z) : Z :=
  let '(m, e) := v in
  if 0 <=? e then m * 2 ^ e else m / 2 ^ (- e).

End Float32.

(** [(a[0] - b[0]) ** 2 + (a[1] - b[1]) ** 2]. *)
Definition dist2 (a b : point) : Z :=
  (px a - px b) ^ 2 + (py a - py b) ^ 2.

(** [int (np.sqrt (dist2 a b))] for two rows [a] and [b] of [rect]. *)
Definition int_dist (a b : point) : Z :=
  let dx := px a - px b in
  let dy := py a - py b in
  if Float32.holds dx && Float32.holds dy
     && Float32.holds (dx ^ 2) && Float32.holds (dy ^ 2)
  then Float32.trunc (Float32.sqrt (Float32.round (dist2 a b)))
  else Z.sqrt (dist2 a b).

(** The size computation of [correct_perspective]: [(maxWidth, maxHeight)]. *)
Definition output_size (rect : Rect) : Z * Z :=
  let widthA := int_dist (br rect) (bl rect) in
  let widthB := int_dist (tr rect) (tl rect) in
  let maxWidth := Z.max widthA widthB in
  let heightA := int_dist (tr rect) (br rect) in
  let heightB := int_dist (tl rect) (bl rect) in
  let maxHeight := Z.max heightA heightB in
  (maxWidth, maxHeight).

(** The destination array [dst] of [correct_perspective]. *)
Definition dst_points (maxWidth maxHeight : Z) : list point :=
  [ (0, 0); (maxWidth - 1, 0); (maxWidth - 1, maxHeight - 1); (0, maxHeight - 1) ].

(** ** Images *)

Definition plane : Type := list (list Z).
Definition cube : Type := list (list (list Z)).

Inductive ndarray : Type :=
| Arr2 (g : plane)
| Arr3 (c : cube).

(** [len (image.shape)]. *)
Definition ndim (img : ndarray) : nat :=
  match img with Arr2 _ => 2%nat | Arr3 _ => 3%nat end.

Definition rows {A : Type} (a : list (list A)) : nat := length a.
Definition cols {A : Type} (a : list (list A)) : nat := length (hd [] a).

Definition height (img : ndarray) : nat :=
  match img with Arr2 g => rows g | Arr3 c => rows c end.
Definition width (img : ndarray) : nat :=
  match img with Arr2 g => cols g | Arr3 c => cols c end.

(** No rows, or rows of no pixels: OpenCV's [empty ()]. *)
Definition is_empty {A : Type} (a : list (list A)) : bool :=
  match a with
  | [] => true
  | [] :: _ => true
  | _ => false
  end.

Fixpoint mapi_from {A B : Type} (f : nat -> A -> B) (i : nat) (l : list A) : list B :=
  match l with
  | [] => []
  | a :: l' => f i a :: mapi_from f (S i) l'
  end.

Definition mapi {A B : Type} (f : nat -> A -> B) (l : list A) : list B :=
  mapi_from f 0%nat l.

Fixpoint mapM {A B : Type} (f : A -> result B) (l : list A) : result (list B) :=
  match l with
  | [] => Ok []
  | a :: l' => b <- f a ;; bs <- mapM f l' ;; Ok (b :: bs)
  end.

(** Integers [lo, lo+1, ..., lo+n-1]. *)
Definition zrange (lo : Z) (n : nat) : list Z :=
  map (fun k => lo + Z.of_nat k) (seq 0 n).

(** Insertion sort of a pixel window. *)
Fixpoint insert_sorted (x : Z) (l : list Z) : list Z :=
  match l with
  | [] => [x]
  | y :: l' => if x <=? y then x :: y :: l' else y :: insert_sorted x l'
  end.

Definition sort_values (l : list Z) : list Z := fold_right insert_sorted [] l.

Definition clamp (n : nat) (i : Z) : nat :=
  Z.to_nat (Z.max 0 (Z.min (Z.of_nat n - 1) i)).

(** Pixel read with [BORDER_REPLICATE]: coordinates are clamped to the image. *)
Definition at_replicate (g : plane) (y x : Z) : Z :=
  nth (clamp (cols g) x) (nth (clamp (rows g) y) g []) 0.

(** [cv::borderInterpolate] for [BORDER_REFLECT_101], one pixel outside. *)
Definition reflect101 (n : nat) (i : Z) : nat :=
  if (n =? 1)%nat then 0%nat
  else if i <? 0 then Z.to_nat (- i)
  else if Z.of_nat n <=? i then Z.to_nat (2 * Z.of_nat n - 2 - i)
  else Z.to_nat i.

Definition at_reflect101 (g : plane) (y x : Z) : Z :=
  nth (reflect101 (cols g) x) (nth (reflect101 (rows g) y) g []) 0.

(** The k x k neighbourhood of (y, x), k = 2 r + 1, row by row. *)
Definition window (g : plane) (r : nat) (y x : nat) : list Z :=
  flat_map (fun dy =>
    map (fun dx => at_replicate g (Z.of_nat y + dy) (Z.of_nat x + dx))
        (zrange (- Z.of_nat r) (2 * r + 1)))
    (zrange (- Z.of_nat r) (2 * r + 1)).

Definition median (l : list Z) : Z :=
  nth (length l / 2) (sort_values l) 0.

(** [cv2.medianBlur (src, ksize)] on a single-channel image. *)
Definition medianBlur (src : plane) (ksize : nat) : result plane :=
  if is_empty src then Raise CvError
  else Ok (mapi (fun y row => mapi (fun x _ => median (window src (ksize / 2) y x)) row) src).

(** [cv2.cvtColor (src, cv2.COLOR_GRAY2BGR)]: the gray value in each of
    the three channels. *)
Definition cvtColor_GRAY2BGR (src : plane) : cube :=
  map (map (fun v => [v; v; v])) src.

(** Channel [k] of a multi-channel image ([cv2.split]). *)
Definition channel (k : nat) (c : cube) : plane :=
  map (map (fun p => nth k p 0)) c.

Definition split3 (img : ndarray) : result (plane * plane * plane) :=
  match img with
  | Arr2 _ => Raise ValueError
  | Arr3 c =>
      if forallb (forallb (fun p => (length p =? 3)%nat)) c
      then Ok (channel 0 c, channel 1 c, channel 2 c)
      else Raise ValueError
  end.

Fixpoint zip3 {A B : Type} (f : A -> A -> A -> B) (l a b : list A) : list B :=
  match l, a, b with
  | x :: l', y :: a', z :: b' => f x y z :: zip3 f l' a' b'
  | _, _, _ => []
  end.

(** [cv2.merge ([l, a, b])]. *)
Definition merge3 (l a b : plane) : cube :=
  zip3 (zip3 (fun x y z => [x; y; z])) l a b.

(** [cv2.Laplacian (gray, cv2.CV_64F)] with the default aperture 1: the
    kernel [[0,1,0],[1,-4,1],[0,1,0]] with reflected borders. *)
Definition Laplacian (gray : plane) : plane :=
  mapi (fun y row => mapi (fun x v =>
    let y' := Z.of_nat y in
    let x' := Z.of_nat x in
    at_reflect101 gray (y' - 1) x' + at_reflect101 gray (y' + 1) x'
    + at_reflect101 gray y' (x' - 1) + at_reflect101 gray y' (x' + 1)
    - 4 * v) row) gray.

Definition Qlt_bool (a b : Q) : bool := negb (Qle_bool b a).

(** ** The OpenCV and NumPy interface *)

Definition contour : Type := list point.
Definition matrix : Type := list (list Q).

Class Cv2 : Type := {
  (** luminance of a (b, g, r) pixel, [COLOR_BGR2GRAY] *)
  luma : Z -> Z -> Z -> Z;
  (** [cv2.GaussianBlur (src, ksize, sigma)] *)
  GaussianBlur : plane -> nat * nat -> Q -> plane;
  (** [cv2.Canny (src, threshold1, threshold2)] *)
  Canny : plane -> Z -> Z -> plane;
  (** [cv2.dilate (src, rectangular kernel of the given size, iterations)] *)
  dilate : plane -> nat * nat -> nat -> plane;
  (** [imutils.grab_contours (cv2.findContours (src, RETR_EXTERNAL,
      CHAIN_APPROX_SIMPLE))] *)
  findContours : plane -> list contour;
  contourArea : contour -> Q;
  (** [cv2.arcLength (cnt, True)] *)
  arcLength : contour -> Q;
  (** [cv2.approxPolyDP (cnt, epsilon, True)] *)
  approxPolyDP : contour -> Q -> contour;
  getPerspectiveTransform : Rect -> list point -> matrix;
  warpPerspective : ndarray -> matrix -> Z * Z -> result ndarray;
  (** the Gaussian-weighted mean of the blockSize x blockSize neighbourhood
      of pixel (y, x), the threshold surface of [ADAPTIVE_THRESH_GAUSSIAN_C] *)
  gaussian_mean : plane -> nat -> nat -> nat -> Z;
  (** [cv2.bilateralFilter (src, d, sigmaColor, sigmaSpace)] *)
  bilateralFilter : ndarray -> Z -> Q -> Q -> result ndarray;
  (** [cv2.filter2D (src, -1, kernel)] *)
  filter2D : ndarray -> list (list Z) -> result ndarray;
  cvtColor_BGR2LAB : ndarray -> result ndarray;
  cvtColor_LAB2BGR : ndarray -> result ndarray;
  (** [cv2.createCLAHE (clipLimit, tileGridSize).apply (src)] *)
  clahe_apply : Q -> nat * nat -> plane -> result plane;
  (** [a.var ()] of the [float64] array that holds the integers [a]: the
      [float64] number that NumPy returns, as a rational *)
  ndarray_var : plane -> Q
}.

(** Python's [sorted (l, key=key, reverse=True)]: stable, largest key
    first; an element goes in front of the first one whose key is not
    larger, so equal keys keep their input order. *)
Fixpoint insert_desc {A : Type} (key : A -> Q) (x : A) (l : list A) : list A :=
  match l with
  | [] => [x]
  | y :: l' =>
      if Qle_bool (key y) (key x) then x :: y :: l'
      else y :: insert_desc key x l'
  end.

Definition sorted_reverse {A : Type} (key : A -> Q) (l : list A) : list A :=
  fold_right (insert_desc key) [] l.

Section Program.

Context {cv : Cv2}.

(** [cv2.cvtColor (src, cv2.COLOR_BGR2GRAY)]: needs a non-empty image of
    three or four channels. *)
Definition gray_of_pixel (p : list Z) : result Z :=
  match p with
  | [b; g; r] => Ok (luma b g r)
  | [b; g; r; _] => Ok (luma b g r)
  | _ => Raise CvError
  end.

Definition cvtColor_BGR2GRAY (src : ndarray) : result plane :=
  match src with
  | Arr2 _ => Raise CvError
  | Arr3 c =>
      if is_empty c then Raise CvError
      else mapM (mapM gray_of_pixel) c
  end.

(** [cv2.adaptiveThreshold (src, maxValue, ADAPTIVE_THRESH_GAUSSIAN_C,
    THRESH_BINARY, blockSize, C)]: a pixel becomes [maxValue] when it
    exceeds the local Gaussian mean minus [C], and 0 otherwise. *)
Definition adaptiveThreshold (src : plane) (maxValue : Z) (blockSize : nat) (C : Z)
  : result plane :=
  if is_empty src then Raise CvError
  else Ok (mapi (fun y row => mapi (fun x v =>
         if v >? gaussian_mean src blockSize y x - C then maxValue else 0) row) src).

(** *** DocumentProcessor *)

Definition preprocess_image (image : ndarray) : result plane :=
  gray <- cvtColor_BGR2GRAY image ;;
  let blurred := GaussianBlur gray (5%nat, 5%nat) 0 in
  let edges := Canny blurred 50 150 in
  let dilated := dilate edges (3%nat, 3%nat) 1 in
  Ok dilated.

(** The [for cnt in cnts[:5]] loop of [detect_document_contour]. *)
Fixpoint search_quad (cnts : list contour) : option contour :=
  match cnts with
  | [] => None
  | cnt :: rest =>
      let epsilon := ((2 # 100) * arcLength cnt)%Q in
      let approx := approxPolyDP cnt epsilon in
      if (length approx =? 4)%nat then Some approx
      else search_quad rest
  end.

Definition detect_document_contour (processed_image : plane) : option contour :=
  let cnts := findContours processed_image in
  match cnts with
  | [] => None
  | _ =>
      let cnts := sorted_reverse contourArea cnts in
      search_quad (firstn 5 cnts)
  end.

(** [contour.reshape (4, 2)]. *)
Definition reshape_4_2 (c : contour) : result (list point) :=
  if (length c =? 4)%nat then Ok c else Raise ValueError.

Definition correct_perspective (image : ndarray) (c : contour) : result ndarray :=
  pts <- reshape_4_2 c ;;
  rect <- order_points pts ;;
  let '(maxWidth, maxHeight) := output_size rect in
  let dst := dst_points maxWidth maxHeight in
  let M := getPerspectiveTransform rect dst in
  warpPerspective image M (maxWidth, maxHeight).

Definition enhance_image (image : ndarray) : result ndarray :=
  gray <- match image with
          | Arr3 _ => cvtColor_BGR2GRAY image
          | Arr2 g => Ok g
          end ;;
  adaptive_thresh <- adaptiveThreshold gray 255 11 2 ;;
  denoised <- medianBlur adaptive_thresh 3 ;;
  match image with
  | Arr3 _ => Ok (Arr3 (cvtColor_GRAY2BGR denoised))
  | Arr2 _ => Ok (Arr2 denoised)
  end.

(** The body of the [try] block of [process_document]. *)
Definition process_document_body (image : ndarray) : result ndarray :=
  preprocessed <- preprocess_image image ;;
  match detect_document_contour preprocessed with
  | Some document_contour =>
      corrected <- correct_perspective image document_contour ;;
      enhanced <- enhance_image corrected ;;
      Ok enhanced
  | None => enhance_image image
  end.

(** [process_document]: [None] is Python's [None], returned by the
    [except] clause. *)
Definition process_document (image : ndarray) : option ndarray :=
  match process_document_body image with
  | Ok r => Some r
  | Raise _ => None
  end.

(** *** CameraHandler *)

(** The sharpening kernel of [_enhance_frame]. *)
Definition sharpen_kernel : list (list Z) :=
  [ [-1; -1; -1]; [-1; 9; -1]; [-1; -1; -1] ].

(** The body of the [try] block of [_enhance_frame]. *)
Definition enhance_frame_body (frame : ndarray) : result ndarray :=
  denoised <- bilateralFilter frame 9 75 75 ;;
  sharpened <- filter2D denoised sharpen_kernel ;;
  lab <- cvtColor_BGR2LAB sharpened ;;
  lab_split <- split3 lab ;;
  let '(l, a, b) := lab_split in
  l <- clahe_apply 2 (8%nat, 8%nat) l ;;
  let enhanced := Arr3 (merge3 l a b) in
  cvtColor_LAB2BGR enhanced.

Definition _enhance_frame (frame : ndarray) : ndarray :=
  match enhance_frame_body frame with
  | Ok enhanced => enhanced
  | Raise _ => frame
  end.

(** The [for frame in frames] loop of [_select_sharpest_frame]. *)
Fixpoint select_loop (frames : list ndarray) (max_variance : Q) (best_frame : ndarray)
  : result ndarray :=
  match frames with
  | [] => Ok best_frame
  | frame :: rest =>
      gray <- cvtColor_BGR2GRAY frame ;;
      let variance := ndarray_var (Laplacian gray) in
      if Qlt_bool max_variance variance
      then select_loop rest variance frame
      else select_loop rest max_variance best_frame
  end.

Definition _select_sharpest_frame (frames : list ndarray) : result ndarray :=
  best_frame <- index frames 0 ;;
  select_loop frames 0 best_frame.

Definition _enhance_for_document (frame : ndarray) : ndarray :=
  match (gray <- cvtColor_BGR2GRAY frame ;;
         let blurred := GaussianBlur gray (5%nat, 5%nat) 0 in
         thresh <- adaptiveThreshold blurred 255 11 2 ;;
         Ok (Arr3 (cvtColor_GRAY2BGR thresh))) with
  | Ok r => r
  | Raise _ => frame
  end.

(** An opened [cv2.VideoCapture]: the outcomes of its coming [read ()]
    calls, [None] standing for [ret = False]. *)
Definition VideoCapture : Type := list (option ndarray).

Definition read (cap : VideoCapture) : option ndarray * VideoCapture :=
  match cap with
  | [] => (None, [])
  | r :: cap' => (r, cap')
  end.

Record CameraHandler : Type := mkCameraHandler {
  camera : option VideoCapture;
  is_active : bool;
  current_frame : option ndarray
}.

Definition get_frame (self : CameraHandler) : option ndarray := current_frame self.

(** The [for _ in range (5)] loop of [capture_high_quality]. *)
Fixpoint read_burst (n : nat) (cap : VideoCapture) (frames : list ndarray)
  : list ndarray * VideoCapture :=
  match n with
  | O => (frames, cap)
  | S n' =>
      let '(r, cap') := read cap in
      match r with
      | Some frame => read_burst n' cap' (frames ++ [frame])
      | None => read_burst n' cap' frames
      end
  end.

Definition capture_high_quality (self : CameraHandler) : option ndarray * CameraHandler :=
  match is_active self, camera self with
  | true, Some cap =>
      let '(frames, cap') := read_burst 5 cap [] in
      let self' := {| camera := Some cap'; is_active := true;
                      current_frame := current_frame self |} in
      match frames with
      | [] => (None, self')
      | _ =>
          match (best_frame <- _select_sharpest_frame frames ;;
                 Ok (_enhance_for_document best_frame)) with
          | Ok enhanced => (Some enhanced, self')
          | Raise _ => (get_frame self', self')
          end
      end
  | _, _ => (None, self)
  end.

End Program.

(** * Specification vocabulary and sample inputs *)

(** ** First-extremum specifications *)

(** [p] is the entry of [pts] of least [key], the first such in input order. *)
Definition first_min (key : point -> Z) (pts : list point) (p : point) : Prop :=
  exists i, nth_error pts i = Some p
    /\ (forall q, In q pts -> key p <= key q)
    /\ (forall j q, (j < i)%nat -> nth_error pts j = Some q -> key p < key q).

(** [p] is the entry of [pts] of greatest [key], the first such in input order. *)
Definition first_max (key : point -> Z) (pts : list point) (p : point) : Prop :=
  exists i, nth_error pts i = Some p
    /\ (forall q, In q pts -> key q <= key p)
    /\ (forall j q, (j < i)%nat -> nth_error pts j = Some q -> key q < key p).

(** The key x - y of the specification's wording. *)
Definition xmy (p : point) : Z := px p - py p.

Definition is_min (key : point -> Z) (pts : list point) (p : point) : Prop :=
  In p pts /\ forall q, In q pts -> key p <= key q.

Definition is_max (key : point -> Z) (pts : list point) (p : point) : Prop :=
  In p pts /\ forall q, In q pts -> key q <= key p.

(** The least and the greatest [key] are each attained by one point only. *)
Definition uniquely_extremal (key : point -> Z) (pts : list point) : Prop :=
  (forall p q, is_min key pts p -> is_min key pts q -> p = q)
  /\ (forall p q, is_max key pts p -> is_max key pts q -> p = q).

(** An axis-aligned square, listed clockwise from its top-left corner. *)
Definition square10 : list point := [ (0, 0); (10, 0); (10, 10); (0, 10) ].

(** The square again, listed from its bottom-right corner, counter-clockwise. *)
Definition square10_shuffled : list point := [ (10, 10); (10, 0); (0, 0); (0, 10) ].

(** A thin kite: a convex quadrilateral with four distinct corners. *)
Definition kite : list point := [ (5, 0); (6, 5); (5, 10); (4, 5) ].


(** The documented contract of [cv2.warpPerspective]: for a positive
    [dsize = (w, h)] the output image has [h] rows and [w] columns. *)
Definition warp_returns_dsize (cv : Cv2) : Prop :=
  forall img M w h out, 0 < w -> 0 < h ->
    warpPerspective img M (w, h) = Ok out ->
    width out = Z.to_nat w /\ height out = Z.to_nat h.

(** A well-formed input of the document pipeline: a non-empty rectangular
    image of three channels. *)
Definition well_formed_bgr (img : ndarray) : Prop :=
  match img with
  | Arr2 _ => False
  | Arr3 c =>
      is_empty c = false
      /\ Forall (fun row => length row = cols c) c
      /\ Forall (Forall (fun p => length p = 3%nat)) c
  end.

(** Every sample of every channel is 0 or 255. *)
Definition binary (v : Z) : Prop := v = 0 \/ v = 255.

Definition binary_plane (g : plane) : Prop := Forall (Forall binary) g.

Definition binary_image (img : ndarray) : Prop :=
  match img with
  | Arr2 g => binary_plane g
  | Arr3 c => Forall (Forall (Forall binary)) c
  end.

(** Three channels, equal at every pixel. *)
Definition gray_bgr (img : ndarray) : Prop :=
  match img with
  | Arr2 _ => False
  | Arr3 c => Forall (Forall (fun p => exists v, p = [v; v; v])) c
  end.

(** The polygon approximation of a contour with a tolerance of 2% of its
    perimeter. *)
Definition approx_two_percent {cv : Cv2} (cnt : contour) : contour :=
  approxPolyDP cnt ((2 # 100) * arcLength cnt)%Q.

(** Largest area first. *)
Definition area_descending {cv : Cv2} (l : list contour) : Prop :=
  StronglySorted (fun a b => (contourArea b <= contourArea a)%Q) l.

(** ** Side lengths *)





(** ** Sharpness *)

(** The luminance of every pixel of a colour image. *)
Definition luminance {cv : Cv2} (c : cube) : plane :=
  map (map (fun p => luma (nth 0 p 0) (nth 1 p 0) (nth 2 p 0))) c.

(** An index one step outside [0, n) taken back inside by reflection about
    the border sample: -1 becomes 1 and [n] becomes [n - 2]; a single row
    or column has the index 0 only. *)
Definition mirror (n i : Z) : Z :=
  if n =? 1 then 0 else if i =? -1 then 1 else if i =? n then n - 2 else i.

Definition sample (g : plane) (y x : Z) : Z :=
  nth (Z.to_nat (mirror (Z.of_nat (cols g)) x))
      (nth (Z.to_nat (mirror (Z.of_nat (rows g)) y)) g []) 0.

(** The discrete Laplacian: at every position the sum of the four
    neighbours minus four times the sample. *)
Definition second_differences (g : plane) : plane :=
  map (fun y => map (fun x =>
    sample g (y - 1) x + sample g (y + 1) x
    + sample g y (x - 1) + sample g y (x + 1) - 4 * sample g y x)
    (zrange 0 (cols g))) (zrange 0 (rows g)).

(** The sharpness score of a colour frame: the variance, as NumPy returns
    it, of the Laplacian of its luminance.  A frame without a channel axis
    has no score, the luminance conversion rejects it; 0 stands for it. *)
Definition laplacian_variance {cv : Cv2} (frame : ndarray) : Q :=
  match frame with
  | Arr3 c => ndarray_var (second_differences (luminance c))
  | Arr2 _ => 0
  end.

(** The variance of a non-empty array is not negative. *)
Definition variance_nonneg (cv : Cv2) : Prop :=
  forall a : plane, is_empty a = false -> (0 <= ndarray_var a)%Q.

(** * A small executable instance of the OpenCV interface

    Simple routines with the shapes and contracts of the OpenCV ones, so
    that the pipeline can be run on concrete images: an edge is a jump of
    at least [threshold2] to the right-hand or lower neighbour, the contour
    extractor returns the outline of the bounding box of the edge pixels,
    the homography is the translation that takes the top-left corner to
    the first destination point and the resampler copies the translated
    window, the local mean is unweighted, the variance is computed without
    rounding, and the smoothing, colour-space and contrast routines leave
    their input unchanged. *)

Module Reference.

Definition luma_fixed (b g r : Z) : Z := (1868 * b + 9617 * g + 4899 * r + 8192) / 16384.

Definition blur (src : plane) (ksize : nat * nat) (sigma : Q) : plane := src.

Definition edges (src : plane) (threshold1 threshold2 : Z) : plane :=
  mapi (fun y row => mapi (fun x v =>
    let right := nth (S x) row v in
    let down := nth x (nth (S y) src []) v in
    if (threshold2 <=? Z.abs (right - v)) || (threshold2 <=? Z.abs (down - v))
    then 255 else 0) row) src.

Definition grow (src : plane) (ksize : nat * nat) (iterations : nat) : plane := src.

Definition nonzero_points (src : plane) : list point :=
  concat (mapi (fun y row =>
    concat (mapi (fun x v =>
      if v =? 0 then [] else [ (Z.of_nat x, Z.of_nat y) ]) row)) src).

Definition bounding_outline (src : plane) : list contour :=
  match nonzero_points src with
  | [] => []
  | p :: ps =>
      let xmin := fold_right Z.min (px p) (map px ps) in
      let xmax := fold_right Z.max (px p) (map px ps) in
      let ymin := fold_right Z.min (py p) (map py ps) in
      let ymax := fold_right Z.max (py p) (map py ps) in
      [ [ (xmin, ymin); (xmax, ymin); (xmax, ymax); (xmin, ymax) ] ]
  end.

(** Twice the signed area, by the shoelace formula. *)
Fixpoint shoelace (first prev : point) (c : contour) : Z :=
  match c with
  | [] => px prev * py first - px first * py prev
  | p :: c' => px prev * py p - px p * py prev + shoelace first p c'
  end.

Definition area (c : contour) : Q :=
  match c with
  | [] => 0%Q
  | p :: c' => (inject_Z (Z.abs (shoelace p p c')) / 2)%Q
  end.

Fixpoint perimeter (first prev : point) (c : contour) : Z :=
  match c with
  | [] => int_dist prev first
  | p :: c' => int_dist prev p + perimeter first p c'
  end.

Definition perimeter_length (c : contour) : Q :=
  match c with
  | [] => 0%Q
  | p :: c' => inject_Z (perimeter p p c')
  end.

Definition approx (c : contour) (epsilon : Q) : contour := c.

Definition translation (src : Rect) (dst : list point) : matrix :=
  let d := hd (0, 0) dst in
  [ [1; 0; inject_Z (px d - px (tl src))];
    [0; 1; inject_Z (py d - py (tl src))];
    [0; 0; 1] ]%Q.

(** The window of size [w] x [h] whose pixel (x, y) is the source pixel
    (x - tx, y - ty), coordinates clamped to the source. *)
Definition shifted {A : Type} (d : A) (a : list (list A)) (tx ty : Z) (w h : nat)
  : list (list A) :=
  map (fun y => map (fun x =>
         nth (clamp (cols a) (Z.of_nat x - tx)) (nth (clamp (rows a) (Z.of_nat y - ty)) a []) d)
       (seq 0 w)) (seq 0 h).

Definition warp (src : ndarray) (M : matrix) (dsize : Z * Z) : result ndarray :=
  let '(w, h) := dsize in
  let tx := Qfloor (nth 2 (nth 0 M []) 0%Q) in
  let ty := Qfloor (nth 2 (nth 1 M []) 0%Q) in
  match src with
  | Arr2 g =>
      if is_empty g then Raise CvError
      else if (w <=? 0) || (h <=? 0) then Ok src
      else Ok (Arr2 (shifted 0 g tx ty (Z.to_nat w) (Z.to_nat h)))
  | Arr3 c =>
      if is_empty c then Raise CvError
      else if (w <=? 0) || (h <=? 0) then Ok src
      else Ok (Arr3 (shifted [] c tx ty (Z.to_nat w) (Z.to_nat h)))
  end.

Definition Qsum (l : list Q) : Q := fold_right Qplus 0%Q l.

(** The mean of the squared deviations from the mean, without rounding. *)
Definition exact_variance (a : plane) : Q :=
  let xs := map inject_Z (concat a) in
  let n := inject_Z (Z.of_nat (length xs)) in
  let mean := (Qsum xs / n)%Q in
  (Qsum (map (fun x => (x - mean) * (x - mean))%Q xs) / n)%Q.

Definition box_mean (src : plane) (blockSize : nat) (y x : nat) : Z :=
  let w := window src (blockSize / 2) y x in
  fold_right Z.add 0 w / Z.of_nat (length w).

Definition cv : Cv2 := {|
  luma := luma_fixed;
  GaussianBlur := blur;
  Canny := edges;
  dilate := grow;
  findContours := bounding_outline;
  contourArea := area;
  arcLength := perimeter_length;
  approxPolyDP := approx;
  getPerspectiveTransform := translation;
  warpPerspective := warp;
  gaussian_mean := box_mean;
  bilateralFilter := fun src _ _ _ => Ok src;
  filter2D := fun src _ => Ok src;
  cvtColor_BGR2LAB := fun src => Ok src;
  cvtColor_LAB2BGR := fun src => Ok src;
  clahe_apply := fun _ _ src => Ok src;
  ndarray_var := exact_variance
|}.

End Reference.

(** * Sample images *)

(** A colour photograph of 200 by 160 pixels: a cream page (rows 40 to 119,
    columns 50 to 149) on a dark blue table. *)
Definition cream : list Z := [120; 200; 230].
Definition dark_blue : list Z := [60; 40; 30].

Definition photographed_page : ndarray :=
  Arr3 (map (fun y => map (fun x =>
    if (40 <=? y) && (y <? 120) && (50 <=? x) && (x <? 150)
    then cream else dark_blue) (zrange 0 200)) (zrange 0 160)).

Definition gray_pixel (v : Z) : list Z := [v; v; v].

(** A 3x3 colour image of a uniform light gray, and one of a uniform dark
    gray: no edges. *)
Definition gray200 : ndarray := Arr3 (repeat (repeat (gray_pixel 200) 3) 3).
Definition gray40 : ndarray := Arr3 (repeat (repeat (gray_pixel 40) 3) 3).
Definition white_3x3 : ndarray := Arr3 (repeat (repeat (gray_pixel 255) 3) 3).

(** A 7x7 colour image: a light page (rows and columns 2 to 4) on a dark
    table. *)
Definition page_on_table : ndarray :=
  Arr3 (map (map gray_pixel)
    [ [40; 40;  40;  40;  40; 40; 40];
      [40; 40;  40;  40;  40; 40; 40];
      [40; 40; 200; 200; 200; 40; 40];
      [40; 40; 200; 200; 200; 40; 40];
      [40; 40; 200; 200; 200; 40; 40];
      [40; 40;  40;  40;  40; 40; 40];
      [40; 40;  40;  40;  40; 40; 40] ]).

(** The edge map, contour, rectified buffer and result that the reference
    instance computes for [page_on_table]. *)
Definition page_edges : plane :=
  [ [0;   0;   0;   0;   0; 0; 0];
    [0;   0; 255; 255; 255; 0; 0];
    [0; 255;   0;   0; 255; 0; 0];
    [0; 255;   0;   0; 255; 0; 0];
    [0; 255; 255; 255; 255; 0; 0];
    [0;   0;   0;   0;   0; 0; 0];
    [0;   0;   0;   0;   0; 0; 0] ].

Definition page_outline : contour := [ (1, 1); (4, 1); (4, 4); (1, 4) ].

Definition page_rectified : ndarray :=
  Arr3 (map (map gray_pixel)
    [ [40;  40;  40];
      [40; 200; 200];
      [40; 200; 200] ]).


(** A 3x3 checkerboard and a 3x3 image with one slightly brighter pixel. *)
Definition checker : ndarray :=
  Arr3 [ [ [0; 0; 0]; [255; 255; 255]; [0; 0; 0] ];
         [ [255; 255; 255]; [0; 0; 0]; [255; 255; 255] ];
         [ [0; 0; 0]; [255; 255; 255]; [0; 0; 0] ] ].

Definition smooth : ndarray :=
  Arr3 [ [ [90; 90; 90]; [90; 90; 90]; [90; 90; 90] ];
         [ [90; 90; 90]; [100; 100; 100]; [90; 90; 90] ];
         [ [90; 90; 90]; [90; 90; 90]; [90; 90; 90] ] ].

(** The frames delivered by a sequence of [read ()] outcomes. *)
Definition delivered (reads : list (option ndarray)) : list ndarray :=
  flat_map (fun r => match r with Some frame => [frame] | None => [] end) reads.

(** * Further operations of the document processor and the camera handler *)

(** Contracts of OpenCV routines used as hypotheses below: the Gaussian
    blur keeps the shape of its input, and the resampler returns, for a
    three-channel source and a positive size, a non-empty rectangular
    three-channel image. *)
Definition blur_keeps_shape (cv : Cv2) : Prop :=
  forall src ksize sigma,
    rows (GaussianBlur src ksize sigma) = rows src
    /\ cols (GaussianBlur src ksize sigma) = cols src.

Definition warp_keeps_type (cv : Cv2) : Prop :=
  forall img M w h out, well_formed_bgr img -> 0 < w -> 0 < h ->
    warpPerspective img M (w, h) = Ok out -> well_formed_bgr out.

(** A colour image that [cv2.cvtColor] accepts: non-empty, every pixel of
    three or four channels. *)
Definition colour_image (img : ndarray) : Prop :=
  match img with
  | Arr2 _ => False
  | Arr3 c =>
      is_empty c = false
      /\ Forall (Forall (fun p => length p = 3%nat \/ length p = 4%nat)) c
  end.

(** [cv2.cvtColor (src, cv2.COLOR_BGR2RGB)] and [COLOR_RGB2BGR] (the same
    conversion): the first three channels in reverse order. *)
Definition swap_red_blue (p : list Z) : result (list Z) :=
  match p with
  | [b; g; r] => Ok [r; g; b]
  | [b; g; r; _] => Ok [r; g; b]
  | _ => Raise CvError
  end.

Definition cvtColor_BGR2RGB (src : ndarray) : result cube :=
  match src with
  | Arr2 _ => Raise CvError
  | Arr3 c => if is_empty c then Raise CvError else mapM (mapM swap_red_blue) c
  end.

Definition cvtColor_RGB2BGR (src : ndarray) : result cube := cvtColor_BGR2RGB src.

(** [cv2.cvtColor (src, cv2.COLOR_GRAY2RGB)]. *)
Definition cvtColor_GRAY2RGB (src : ndarray) : result cube :=
  match src with
  | Arr2 g => if is_empty g then Raise CvError else Ok (cvtColor_GRAY2BGR g)
  | Arr3 _ => Raise CvError
  end.

(** The enhancers of [PIL.ImageEnhance] on an RGB image:
    [ImageEnhance.Brightness (img).enhance (factor)] and its siblings. *)
Class Pil : Type := {
  Brightness_enhance : cube -> Q -> result cube;
  Contrast_enhance : cube -> Q -> result cube;
  Sharpness_enhance : cube -> Q -> result cube
}.

Section Adjustments.

Context {pil : Pil}.

(** The body of the [try] block of [DocumentProcessor.apply_adjustments];
    [Image.fromarray] and [np.array] carry the RGB samples over unchanged. *)
Definition apply_adjustments_body (image : ndarray) (brightness contrast sharpness : Q)
  : result ndarray :=
  image_rgb <- match image with
               | Arr3 _ => cvtColor_BGR2RGB image
               | Arr2 _ => cvtColor_GRAY2RGB image
               end ;;
  let pil_image := image_rgb in
  pil_image <- (if negb (Qeq_bool brightness 1)
                then Brightness_enhance pil_image brightness
                else Ok pil_image) ;;
  pil_image <- (if negb (Qeq_bool contrast 1)
                then Contrast_enhance pil_image contrast
                else Ok pil_image) ;;
  pil_image <- (if negb (Qeq_bool sharpness 1)
                then Sharpness_enhance pil_image sharpness
                else Ok pil_image) ;;
  let result_array := pil_image in
  result_bgr <- cvtColor_RGB2BGR (Arr3 result_array) ;;
  Ok (Arr3 result_bgr).

Definition apply_adjustments (image : ndarray) (brightness contrast sharpness : Q)
  : ndarray :=
  match apply_adjustments_body image brightness contrast sharpness with
  | Ok result_bgr => result_bgr
  | Raise _ => image
  end.

End Adjustments.

(** What [cv2.VideoCapture (index)] gives for each device index: [None]
    when the device cannot be opened ([isOpened ()] is false), otherwise the
    outcomes of the coming reads of the opened capture. *)
Definition Devices : Type := nat -> option VideoCapture.

(** A capture that is not opened, or was released: every read fails. *)
Definition closed_capture : VideoCapture := [].

(** [CameraHandler.start_camera], without the capture thread it starts;
    the fields [camera_index] and [capture_thread], which are written and
    never read, are left out. *)
Definition start_camera (devices : Devices) (self : CameraHandler) (camera_index : nat)
  : bool * CameraHandler :=
  match devices camera_index with
  | None =>
      (false, {| camera := Some closed_capture; is_active := is_active self;
                 current_frame := current_frame self |})
  | Some cap =>
      let '(ret, cap') := read cap in
      match ret with
      | None =>
          (false, {| camera := Some closed_capture; is_active := is_active self;
                     current_frame := current_frame self |})
      | Some _ =>
          (true, {| camera := Some cap'; is_active := true;
                    current_frame := current_frame self |})
      end
  end.

(** [CameraHandler.stop_camera]. *)
Definition stop_camera (self : CameraHandler) : CameraHandler :=
  {| camera := None; is_active := false; current_frame := None |}.

(** [CameraHandler.switch_camera]. *)
Definition switch_camera (devices : Devices) (self : CameraHandler) (camera_index : nat)
  : bool * CameraHandler :=
  let self := if is_active self then stop_camera self else self in
  start_camera devices self camera_index.

(** The [for i in range (5)] loop of [list_available_cameras]. *)
Fixpoint probe_cameras (devices : Devices) (indices : list nat) (available_cameras : list nat)
  : list nat :=
  match indices with
  | [] => available_cameras
  | i :: rest =>
      match devices i with
      | Some cap =>
          match fst (read cap) with
          | Some _ => probe_cameras devices rest (available_cameras ++ [i])
          | None => probe_cameras devices rest available_cameras
          end
      | None => probe_cameras devices rest available_cameras
      end
  end.

Definition list_available_cameras (devices : Devices) : list nat :=
  probe_cameras devices (seq 0 5) [].

(** Two devices: index 0 delivers frames, index 1 opens but delivers
    nothing; no other index can be opened. *)
Definition two_devices : Devices :=
  fun i => match i with
           | O => Some [Some smooth; Some checker; None; Some checker; Some gray40;
                        Some smooth; Some gray40]
           | S O => Some []
           | _ => None
           end.

Definition idle_handler : CameraHandler :=
  {| camera := None; is_active := false; current_frame := None |}.

(** An active handler whose camera is about to deliver the given reads,
    with a stored preview frame. *)
Definition active_handler (reads : VideoCapture) : CameraHandler :=
  {| camera := Some reads; is_active := true; current_frame := Some gray40 |}.

Definition good_burst : VideoCapture :=
  [None; Some smooth; Some checker; None; Some checker; Some gray40].

Definition gray_frame : ndarray := Arr2 [ [10; 20]; [30; 40] ].

Definition mixed_burst : VideoCapture :=
  [Some checker; Some gray_frame; None; Some smooth; None; Some smooth].

(** The identity enhancers, for running [apply_adjustments]. *)
Definition plain_pil : Pil := {|
  Brightness_enhance := fun img _ => Ok img;
  Contrast_enhance := fun img _ => Ok img;
  Sharpness_enhance := fun img _ => Ok img
|}.

(** A contour moved by the vector [d], and a rectangle moved likewise. *)
Definition translate (d p : point) : point := (px p + px d, py p + py d).

Definition translate_rect (d : point) (r : Rect) : Rect :=
  {| tl := translate d (tl r); tr := translate d (tr r);
     br := translate d (br r); bl := translate d (bl r) |}.

(** The corners of the upright rectangle with opposite corners (x0, y0)
    and (x1, y1), clockwise from the top-left one. *)
Definition upright (x0 y0 x1 y1 : Z) : list point :=
  [ (x0, y0); (x1, y0); (x1, y1); (x0, y1) ].

(** * The page list of the application ([main.py]) *)

Module Pages.

Import String.

(** An entry of [scanned_pages]: the dictionary with the keys ['name'],
    ['image'] and ['timestamp']. *)
Record page : Type := mkPage {
  name : String.string;
  image : ndarray;
  timestamp : String.string
}.

(** The fields of [DocumentScannerApp] that the page operations read or
    write, and the selection of [pages_listbox] ([curselection ()] of a
    single-selection list box). *)
Record App : Type := mkApp {
  scanned_pages : list page;
  selected_page_index : option nat;
  current_image : option ndarray;
  processed_image : option ndarray;
  page_counter : nat;
  listbox_selection : option nat
}.

(** [l[i] = x] for [i] in range. *)
Fixpoint set_item {A : Type} (l : list A) (i : nat) (x : A) : list A :=
  match l, i with
  | [], _ => []
  | _ :: l', O => x :: l'
  | a :: l', S i' => a :: set_item l' i' x
  end.

(** [l.pop (i)] for [i] in range. *)
Fixpoint pop {A : Type} (l : list A) (i : nat) : list A :=
  match l, i with
  | [], _ => []
  | _ :: l', O => l'
  | a :: l', S i' => a :: pop l' i'
  end.

(** [l.insert (i, x)]: an index past the end appends. *)
Fixpoint insert {A : Type} (l : list A) (i : nat) (x : A) : list A :=
  match l, i with
  | [], _ => [x]
  | _, O => x :: l
  | a :: l', S i' => a :: insert l' i' x
  end.

(** [l[i], l[j] = l[j], l[i]]: the right-hand side is read first, then
    [l[i]] and [l[j]] are written in that order. *)
Definition swap_items {A : Type} (l : list A) (i j : nat) : list A :=
  match nth_error l j, nth_error l i with
  | Some at_j, Some at_i => set_item (set_item l i at_j) j at_i
  | _, _ => l
  end.

(** [update_pages_list] empties and refills the list box, which drops its
    selection. *)
Definition update_pages_list (app : App) : App :=
  {| scanned_pages := scanned_pages app;
     selected_page_index := selected_page_index app;
     current_image := current_image app;
     processed_image := processed_image app;
     page_counter := page_counter app;
     listbox_selection := None |}.

Definition with_pages (app : App) (pages : list page) : App :=
  {| scanned_pages := pages;
     selected_page_index := selected_page_index app;
     current_image := current_image app;
     processed_image := processed_image app;
     page_counter := page_counter app;
     listbox_selection := listbox_selection app |}.

Definition selection_set (app : App) (i : nat) : App :=
  {| scanned_pages := scanned_pages app;
     selected_page_index := selected_page_index app;
     current_image := current_image app;
     processed_image := processed_image app;
     page_counter := page_counter app;
     listbox_selection := Some i |}.

Definition move_page_up (app : App) : App :=
  match listbox_selection app with
  | None => app
  | Some index =>
      if (0 <? index)%nat && (index <? List.length (scanned_pages app))%nat
      then
        let pages := swap_items (scanned_pages app) index (index - 1) in
        selection_set (update_pages_list (with_pages app pages)) (index - 1)
      else app
  end.

Definition move_page_down (app : App) : App :=
  match listbox_selection app with
  | None => app
  | Some index =>
      if Z.of_nat index <? Z.of_nat (List.length (scanned_pages app)) - 1
      then
        let pages := swap_items (scanned_pages app) index (index + 1) in
        selection_set (update_pages_list (with_pages app pages)) (index + 1)
      else app
  end.

(** [delete_page]; [confirm] is the answer to the confirmation dialog. *)
Definition delete_page (confirm : bool) (app : App) : App :=
  match listbox_selection app with
  | None => app
  | Some index =>
      if (List.length (scanned_pages app) <=? index)%nat then app
      else if confirm
      then update_pages_list (with_pages app (pop (scanned_pages app) index))
      else app
  end.

(** [duplicate_page]; [now] is the formatted current time. *)
Definition duplicate_page (now : String.string) (app : App) : App :=
  match listbox_selection app with
  | None => app
  | Some index =>
      match nth_error (scanned_pages app) index with
      | Some original_page =>
          let duplicate :=
            {| name := String.append (name original_page) " (Copia)"%string;
               image := image original_page;
               timestamp := now |} in
          update_pages_list
            (with_pages app (insert (scanned_pages app) (index + 1) duplicate))
      | None => app
      end
  end.

Definition view_page (app : App) : App :=
  match listbox_selection app with
  | None => app
  | Some index =>
      match nth_error (scanned_pages app) index with
      | Some page_data =>
          {| scanned_pages := scanned_pages app;
             selected_page_index := Some index;
             current_image := Some (image page_data);
             processed_image := None;
             page_counter := page_counter app;
             listbox_selection := listbox_selection app |}
      | None => app
      end
  end.

(** [update_selected_page]; [confirm] is the answer to the confirmation
    dialog and [now] the formatted current time. *)
Definition update_selected_page (confirm : bool) (now : String.string) (app : App) : App :=
  match selected_page_index app with
  | None => app
  | Some selected =>
      match nth_error (scanned_pages app) selected with
      | None => app
      | Some page_data =>
          match processed_image app with
          | None => app
          | Some processed =>
              if confirm
              then
                let updated :=
                  {| name := name page_data; image := processed; timestamp := now |} in
                {| scanned_pages := set_item (scanned_pages app) selected updated;
                   selected_page_index := selected_page_index app;
                   current_image := current_image app;
                   processed_image := None;
                   page_counter := page_counter app;
                   listbox_selection := None |}
              else app
          end
      end
  end.

(** [_process_image], the body of [auto_process]. *)
Definition auto_process {cv : Cv2} (app : App) : App :=
  match current_image app with
  | None => app
  | Some current =>
      match process_document current with
      | Some processed =>
          {| scanned_pages := scanned_pages app;
             selected_page_index := selected_page_index app;
             current_image := current_image app;
             processed_image := Some processed;
             page_counter := page_counter app;
             listbox_selection := listbox_selection app |}
      | None => app
      end
  end.

(** Three pages and an application state that lists them. *)
Definition page_a : page := {| name := "A"%string; image := gray40; timestamp := "10:00:00"%string |}.
Definition page_b : page := {| name := "B"%string; image := checker; timestamp := "10:00:05"%string |}.
Definition page_c : page := {| name := "C"%string; image := smooth; timestamp := "10:00:09"%string |}.

(** The suffix that [duplicate_page] appends to a name. *)
Definition copy_suffix : string := " (Copia)".

(** A later time of day. *)
Definition later : string := "11:00:00".

Definition three_pages (selection selected : option nat) (processed : option ndarray) : App :=
  {| scanned_pages := [page_a; page_b; page_c];
     selected_page_index := selected;
     current_image := None;
     processed_image := processed;
     page_counter := 3;
     listbox_selection := selection |}.

End Pages.

(** * Settings of the PDF generator ([pdf_generator.py]) *)

Module PdfSettings.

Import String.

Section Sizes.

(** The page sizes [A4] and [letter] of [reportlab.lib.pagesizes], in points. *)
Variables A4 letter : Q * Q.

Record PDFGenerator : Type := mkPDFGenerator {
  page_size : Q * Q;
  margin : Q;
  quality : Q
}.

(** [PDFGenerator.__init__]: the margin is half an inch of 72 points. *)
Definition init : PDFGenerator :=
  {| page_size := A4; margin := (5 # 10) * 72; quality := 95 |}.

(** The dictionary [sizes] of [set_page_size]. *)
Definition sizes : list (String.string * (Q * Q)) :=
  [ ("A4"%string, A4); ("Letter"%string, letter); ("Legal"%string, (612, 1008)%Q) ].

Fixpoint lookup (key : String.string) (d : list (String.string * (Q * Q))) : option (Q * Q) :=
  match d with
  | [] => None
  | (k, v) :: d' => if String.eqb key k then Some v else lookup key d'
  end.

Definition set_page_size (self : PDFGenerator) (size : String.string) : bool * PDFGenerator :=
  match lookup size sizes with
  | Some s => (true, {| page_size := s; margin := margin self; quality := quality self |})
  | None => (false, self)
  end.

Definition set_quality (self : PDFGenerator) (q : Q) : bool * PDFGenerator :=
  if Qle_bool 0 q && Qle_bool q 100
  then (true, {| page_size := page_size self; margin := margin self; quality := q |})
  else (false, self).

(** A call of one of the two setters. *)
Inductive call : Type :=
| SetPageSize (size : String.string)
| SetQuality (q : Q).

Definition run (self : PDFGenerator) (c : call) : PDFGenerator :=
  match c with
  | SetPageSize size => snd (set_page_size self size)
  | SetQuality q => snd (set_quality self q)
  end.

(** The quality is a JPEG quality and the page size one of the three
    sizes on offer. *)
Definition valid (self : PDFGenerator) : Prop :=
  (0 <= quality self)%Q /\ (quality self <= 100)%Q
  /\ (page_size self = A4 \/ page_size self = letter
      \/ page_size self = (612, 1008)%Q).

End Sizes.

End PdfSettings.

(** * Properties *)

Module NumpyFacts.
Import Numpy.

Lemma argmin_from_spec (l : list Z) : forall bi bv i,
  (argmin_from bi bv i l = bi /\ forall x, In x l -> bv <= x)
  \/ exists j v, argmin_from bi bv i l = (i + j)%nat
       /\ nth_error l j = Some v /\ v < bv
       /\ (forall x, In x l -> v <= x)
       /\ (forall j' x, (j' < j)%nat -> nth_error l j' = Some x -> v < x).
Proof.
  induction l as [|a l IH]; intros bi bv i; simpl.
  - left. split; [reflexivity | intros x []].
  - destruct (Z.ltb_spec a bv) as [Hlt|Hge].
    + right. destruct (IH i a (S i)) as [[E Hall]|(j & v & E & Hn & Hv & Hall & Hfirst)].
      * exists 0%nat, a. rewrite E. repeat split.
        -- lia.
        -- assumption.
        -- intros x [<-|Hx]; [lia | auto].
        -- intros j' x Hj. lia.
      * exists (S j), v. rewrite E. repeat split.
        -- lia.
        -- assumption.
        -- lia.
        -- intros x [<-|Hx]; [lia | auto].
        -- intros [|j'] x Hj Hx; simpl in Hx.
           ++ injection Hx as <-. assumption.
           ++ apply (Hfirst j'); [lia | assumption].
    + destruct (IH bi bv (S i)) as [[E Hall]|(j & v & E & Hn & Hv & Hall & Hfirst)].
      * left. split; [assumption|]. intros x [<-|Hx]; [lia | auto].
      * right. exists (S j), v. rewrite E. repeat split.
        -- lia.
        -- assumption.
        -- assumption.
        -- intros x [<-|Hx]; [lia | auto].
        -- intros [|j'] x Hj Hx; simpl in Hx.
           ++ injection Hx as <-. lia.
           ++ apply (Hfirst j'); [lia | assumption].
Qed.

Lemma argmin_spec (l : list Z) (k : nat) :
  argmin l = Ok k ->
  exists v, nth_error l k = Some v
    /\ (forall x, In x l -> v <= x)
    /\ (forall j x, (j < k)%nat -> nth_error l j = Some x -> v < x).
Proof.
  destruct l as [|a l]; simpl; [discriminate|].
  intros H. injection H as <-.
  destruct (argmin_from_spec l 0%nat a 1%nat) as [[E Hall]|(j & v & E & Hn & Hv & Hall & Hfirst)];
    rewrite E.
  - exists a. repeat split.
    + intros x [<-|Hx]; [lia | auto].
    + intros j x Hj. lia.
  - exists v. repeat split.
    + assumption.
    + intros x [<-|Hx]; [lia | auto].
    + intros [|j'] x Hj Hx; simpl in Hx.
      * injection Hx as <-. assumption.
      * apply (Hfirst j'); [lia | assumption].
Qed.

Lemma argmax_from_opp (l : list Z) : forall bi bv i,
  argmax_from bi bv i l = argmin_from bi (- bv) i (map Z.opp l).
Proof.
  induction l as [|a l IH]; intros bi bv i; simpl; [reflexivity|].
  destruct (Z.ltb_spec bv a), (Z.ltb_spec (- a) (- bv)); try lia; apply IH.
Qed.

Lemma argmax_opp (l : list Z) : argmax l = argmin (map Z.opp l).
Proof.
  destruct l as [|a l]; simpl; [reflexivity|]. now rewrite argmax_from_opp.
Qed.

Lemma argmax_spec (l : list Z) (k : nat) :
  argmax l = Ok k ->
  exists v, nth_error l k = Some v
    /\ (forall x, In x l -> x <= v)
    /\ (forall j x, (j < k)%nat -> nth_error l j = Some x -> x < v).
Proof.
  rewrite argmax_opp. intros H.
  destruct (argmin_spec _ _ H) as (v & Hn & Hall & Hfirst).
  rewrite nth_error_map in Hn.
  destruct (nth_error l k) as [w|] eqn:Hw; [|discriminate].
  simpl in Hn. injection Hn as <-.
  exists w. repeat split.
  - intros x Hx. specialize (Hall (- x) (in_map Z.opp _ _ Hx)). lia.
  - intros j x Hj Hx.
    assert (Hm : nth_error (map Z.opp l) j = Some (- x)) by (rewrite nth_error_map, Hx; reflexivity).
    specialize (Hfirst j _ Hj Hm). lia.
Qed.

Lemma argmin_defined (l : list Z) : l <> [] -> exists k, argmin l = Ok k.
Proof. destruct l; [congruence | simpl; eauto]. Qed.

Lemma argmax_defined (l : list Z) : l <> [] -> exists k, argmax l = Ok k.
Proof. destruct l; [congruence | simpl; eauto]. Qed.

End NumpyFacts.

(** Selecting the row of [pts] at the [argmin] of a column of keys. *)
Lemma pick_argmin (key : point -> Z) (pts : list point) :
  pts <> [] ->
  exists i p, Numpy.argmin (map key pts) = Ok i /\ index pts i = Ok p
    /\ first_min key pts p.
Proof.
  intros Hne.
  destruct (NumpyFacts.argmin_defined (map key pts)) as [i Hi].
  { destruct pts; [congruence | discriminate]. }
  destruct (NumpyFacts.argmin_spec _ _ Hi) as (v & Hn & Hall & Hfirst).
  rewrite nth_error_map in Hn.
  destruct (nth_error pts i) as [p|] eqn:Hp; [|discriminate].
  simpl in Hn. injection Hn as <-.
  exists i, p. unfold index. rewrite Hp. repeat split; try assumption.
  exists i. repeat split.
  - assumption.
  - intros q Hq. apply Hall, in_map, Hq.
  - intros j q Hj Hq. apply (Hfirst j); [assumption|].
    rewrite nth_error_map, Hq. reflexivity.
Qed.

Lemma pick_argmax (key : point -> Z) (pts : list point) :
  pts <> [] ->
  exists i p, Numpy.argmax (map key pts) = Ok i /\ index pts i = Ok p
    /\ first_max key pts p.
Proof.
  intros Hne.
  destruct (NumpyFacts.argmax_defined (map key pts)) as [i Hi].
  { destruct pts; [congruence | discriminate]. }
  destruct (NumpyFacts.argmax_spec _ _ Hi) as (v & Hn & Hall & Hfirst).
  rewrite nth_error_map in Hn.
  destruct (nth_error pts i) as [p|] eqn:Hp; [|discriminate].
  simpl in Hn. injection Hn as <-.
  exists i, p. unfold index. rewrite Hp. repeat split; try assumption.
  exists i. repeat split.
  - assumption.
  - intros q Hq. apply Hall, in_map, Hq.
  - intros j q Hj Hq. apply (Hfirst j); [assumption|].
    rewrite nth_error_map, Hq. reflexivity.
Qed.

(** [order_points] on a non-empty array, slot by slot, with the keys of
    the code: row sums and [np.diff], that is y - x. *)
Lemma order_points_slots (pts : list point) :
  pts <> [] ->
  exists r, order_points pts = Ok r
    /\ first_min psum pts (tl r) /\ first_max psum pts (br r)
    /\ first_min pdiff pts (tr r) /\ first_max pdiff pts (bl r).
Proof.
  intros Hne. unfold order_points.
  destruct (pick_argmin psum pts Hne) as (i0 & p0 & E0 & F0 & H0).
  destruct (pick_argmax psum pts Hne) as (i2 & p2 & E2 & F2 & H2).
  destruct (pick_argmin pdiff pts Hne) as (i1 & p1 & E1 & F1 & H1).
  destruct (pick_argmax pdiff pts Hne) as (i3 & p3 & E3 & F3 & H3).
  cbv zeta. rewrite E0; cbn [bind]. rewrite F0; cbn [bind].
  rewrite E2; cbn [bind]. rewrite F2; cbn [bind].
  rewrite E1; cbn [bind]. rewrite F1; cbn [bind].
  rewrite E3; cbn [bind]. rewrite F3; cbn [bind].
  eexists. split; [reflexivity|]. simpl. auto.
Qed.

Lemma first_min_pdiff_xmy (pts : list point) (p : point) :
  first_min pdiff pts p <-> first_max xmy pts p.
Proof.
  unfold first_min, first_max, pdiff, xmy.
  split; intros (i & Hn & Hall & Hfirst); exists i; repeat split; try assumption.
  - intros q Hq. specialize (Hall q Hq). lia.
  - intros j q Hj Hq. specialize (Hfirst j q Hj Hq). lia.
  - intros q Hq. specialize (Hall q Hq). lia.
  - intros j q Hj Hq. specialize (Hfirst j q Hj Hq). lia.
Qed.

Lemma first_max_pdiff_xmy (pts : list point) (p : point) :
  first_max pdiff pts p <-> first_min xmy pts p.
Proof.
  unfold first_min, first_max, pdiff, xmy.
  split; intros (i & Hn & Hall & Hfirst); exists i; repeat split; try assumption.
  - intros q Hq. specialize (Hall q Hq). lia.
  - intros j q Hj Hq. specialize (Hfirst j q Hj Hq). lia.
  - intros q Hq. specialize (Hall q Hq). lia.
  - intros j q Hj Hq. specialize (Hfirst j q Hj Hq). lia.
Qed.

Lemma length4_nonempty {A : Type} (l : list A) : length l = 4%nat -> l <> [].
Proof. destruct l; [discriminate | congruence]. Qed.

(** ** Point ordering *)

(** C2, as amended: on an array of exactly four points, [order_points]
    returns the rectangle whose top-left is the first point of least x + y,
    whose bottom-right is the first point of greatest x + y, whose top-right
    is the first point of greatest x - y (least y - x, the [np.diff] key)
    and whose bottom-left is the first point of least x - y; "first" is in
    input order, so the earliest point wins a tie. *)
Theorem order_points_first_extrema (pts : list point) :
  length pts = 4%nat ->
  exists r, order_points pts = Ok r
    /\ first_min psum pts (tl r) /\ first_max psum pts (br r)
    /\ first_max xmy pts (tr r) /\ first_min xmy pts (bl r).
Proof.
  intros Hlen.
  destruct (order_points_slots pts (length4_nonempty pts Hlen))
    as (r & Hr & Htl & Hbr & Htr & Hbl).
  exists r. repeat split; try assumption.
  - now apply first_min_pdiff_xmy.
  - now apply first_max_pdiff_xmy.
Qed.

Lemma order_points_first_extrema_witness :
  length square10 = 4%nat
  /\ exists r, order_points square10 = Ok r
       /\ first_min psum square10 (tl r) /\ first_max psum square10 (br r)
       /\ first_max xmy square10 (tr r) /\ first_min xmy square10 (bl r).
Proof.
  split; [reflexivity | apply (order_points_first_extrema square10); reflexivity].
Defined.

(** C2 as worded fails on the square: the code puts (10, 0) in the
    top-right slot and (0, 10) in the bottom-left slot, yet (10, 0) has the
    greatest x - y, not the least, and (0, 10) the least, not the greatest. *)
Lemma order_points_xmy_counterexample :
  order_points square10
    = Ok {| tl := (0, 0); tr := (10, 0); br := (10, 10); bl := (0, 10) |}
  /\ ~ first_min xmy square10 (10, 0)
  /\ ~ first_max xmy square10 (0, 10).
Proof.
  split; [reflexivity|]. split.
  - intros (i & _ & Hall & _).
    specialize (Hall (0, 10)). unfold xmy, px, py, square10 in Hall. simpl in Hall.
    assert (10 - 0 <= 0 - 10) by (apply Hall; auto). lia.
  - intros (i & _ & Hall & _).
    specialize (Hall (10, 0)). unfold xmy, px, py, square10 in Hall. simpl in Hall.
    assert (10 - 0 <= 0 - 10) by (apply Hall; auto). lia.
Qed.

Lemma first_min_is_min (key : point -> Z) (pts : list point) (p : point) :
  first_min key pts p -> is_min key pts p.
Proof.
  intros (i & Hn & Hall & _). split; [eapply nth_error_In; eassumption | assumption].
Qed.

Lemma first_max_is_max (key : point -> Z) (pts : list point) (p : point) :
  first_max key pts p -> is_max key pts p.
Proof.
  intros (i & Hn & Hall & _). split; [eapply nth_error_In; eassumption | assumption].
Qed.

Lemma is_min_perm (key : point -> Z) (pts pts' : list point) (p : point) :
  Permutation pts pts' -> is_min key pts' p -> is_min key pts p.
Proof.
  intros HP [Hin Hall]. split.
  - eapply Permutation_in; [apply Permutation_sym|]; eassumption.
  - intros q Hq. apply Hall. eapply Permutation_in; eassumption.
Qed.

Lemma is_max_perm (key : point -> Z) (pts pts' : list point) (p : point) :
  Permutation pts pts' -> is_max key pts' p -> is_max key pts p.
Proof.
  intros HP [Hin Hall]. split.
  - eapply Permutation_in; [apply Permutation_sym|]; eassumption.
  - intros q Hq. apply Hall. eapply Permutation_in; eassumption.
Qed.

(** Unique extrema of y - x and of x - y are the same condition. *)
Lemma uniquely_extremal_pdiff_xmy (pts : list point) :
  uniquely_extremal pdiff pts <-> uniquely_extremal xmy pts.
Proof.
  assert (Hmin : forall p, is_min pdiff pts p <-> is_max xmy pts p).
  { intros p. unfold is_min, is_max, pdiff, xmy.
    split; intros [Hin Hall]; (split; [exact Hin|]); intros q Hq;
      specialize (Hall q Hq); lia. }
  assert (Hmax : forall p, is_max pdiff pts p <-> is_min xmy pts p).
  { intros p. unfold is_min, is_max, pdiff, xmy.
    split; intros [Hin Hall]; (split; [exact Hin|]); intros q Hq;
      specialize (Hall q Hq); lia. }
  unfold uniquely_extremal. split; intros [H1 H2]; split; intros p q Hp Hq.
  - apply H2; now apply Hmax.
  - apply H1; now apply Hmin.
  - apply H2; now apply Hmin.
  - apply H1; now apply Hmax.
Qed.

(** C7: when the least and the greatest of x + y and of y - x (equally,
    of x - y) are each attained by a single corner, [order_points] gives
    the same rectangle on every permutation of the four points. *)
Theorem order_points_permutation_invariant (pts pts' : list point) :
  length pts = 4%nat ->
  Permutation pts pts' ->
  uniquely_extremal psum pts ->
  uniquely_extremal pdiff pts ->
  order_points pts' = order_points pts /\ exists r, order_points pts = Ok r.
Proof.
  intros Hlen HP [Hsmin Hsmax] [Hdmin Hdmax].
  assert (Hlen' : length pts' = 4%nat) by (rewrite <- Hlen; symmetry; now apply Permutation_length).
  destruct (order_points_slots pts (length4_nonempty pts Hlen))
    as (r & Hr & Htl & Hbr & Htr & Hbl).
  destruct (order_points_slots pts' (length4_nonempty pts' Hlen'))
    as (r' & Hr' & Htl' & Hbr' & Htr' & Hbl').
  split; [|eauto].
  rewrite Hr, Hr'. f_equal.
  destruct r as [a b c d], r' as [a' b' c' d']; simpl in *.
  f_equal.
  - apply Hsmin; [eapply is_min_perm; [eassumption|]|]; now apply first_min_is_min.
  - apply Hdmin; [eapply is_min_perm; [eassumption|]|]; now apply first_min_is_min.
  - apply Hsmax; [eapply is_max_perm; [eassumption|]|]; now apply first_max_is_max.
  - apply Hdmax; [eapply is_max_perm; [eassumption|]|]; now apply first_max_is_max.
Qed.

Lemma square10_shuffled_perm : Permutation square10 square10_shuffled.
Proof.
  unfold square10, square10_shuffled.
  apply Permutation_trans with (l' := [ (10, 0); (0, 0); (10, 10); (0, 10) ]).
  - apply perm_swap.
  - apply Permutation_trans with (l' := [ (10, 0); (10, 10); (0, 0); (0, 10) ]).
    + apply perm_skip, perm_swap.
    + apply perm_swap.
Qed.

Ltac four_points H :=
  unfold square10 in H; simpl in H;
  destruct H as [H|[H|[H|[H|[]]]]]; subst.

(** Instantiate a bound over the corners of the square at each corner. *)
Ltac at_corners Hm :=
  let H1 := fresh in let H2 := fresh in let H3 := fresh in let H4 := fresh in
  assert (H1 := Hm (0, 0)); assert (H2 := Hm (10, 0));
  assert (H3 := Hm (10, 10)); assert (H4 := Hm (0, 10));
  unfold square10, psum, pdiff, px, py in H1, H2, H3, H4; simpl in H1, H2, H3, H4;
  assert (0 <= 10) by lia;
  specialize (H1 ltac:(auto)); specialize (H2 ltac:(auto));
  specialize (H3 ltac:(auto)); specialize (H4 ltac:(auto)).

Lemma square10_uniquely_extremal :
  uniquely_extremal psum square10 /\ uniquely_extremal pdiff square10.
Proof.
  repeat split; intros p q [Hp Hpm] [Hq Hqm];
    four_points Hp; four_points Hq; try reflexivity;
    at_corners Hpm; at_corners Hqm; lia.
Qed.

Lemma order_points_permutation_invariant_witness :
  order_points square10_shuffled = order_points square10
  /\ exists r, order_points square10 = Ok r.
Proof.
  apply (order_points_permutation_invariant square10 square10_shuffled).
  - reflexivity.
  - exact square10_shuffled_perm.
  - exact (proj1 square10_uniquely_extremal).
  - exact (proj2 square10_uniquely_extremal).
Defined.

(** ** Output size of the rectifier *)

Lemma dist2_nonneg (a b : point) : 0 <= dist2 a b.
Proof. unfold dist2. nia. Qed.

Lemma dist2_zero_iff (a b : point) : dist2 a b = 0 <-> a = b.
Proof.
  destruct a as [ax ay], b as [bx by']. unfold dist2, px, py. simpl. split.
  - intros H. assert (ax - bx = 0) by nia. assert (ay - by' = 0) by nia.
    f_equal; lia.
  - intros H. injection H as -> ->. rewrite !Z.sub_diag. reflexivity.
Qed.

(** *** The [float32] square root *)

Module Float32Facts.

Lemma holds_opp (x : Z) : Float32.holds (- x) = Float32.holds x.
Proof. unfold Float32.holds. now rewrite Z.abs_opp. Qed.

(** What [float32] holds is not rounded. *)
Lemma round_holds (x : Z) : 0 <= x -> Float32.holds x = true -> Float32.round x = x.
Proof.
  intros Hx. unfold Float32.holds, Float32.round. cbv zeta.
  rewrite Z.abs_eq by exact Hx.
  destruct (Z.leb_spec (Z.log2 x - 23) 0) as [Hs|Hs]; [reflexivity|].
  intros Hm. apply Z.eqb_eq in Hm. rewrite Hm.
  assert (Hhalf : 0 < 2 ^ (Z.log2 x - 23 - 1)) by (apply Z.pow_pos_nonneg; lia).
  destruct (Z.ltb_spec (2 ^ (Z.log2 x - 23 - 1)) 0); [lia|].
  destruct (Z.eqb_spec 0 (2 ^ (Z.log2 x - 23 - 1))); [lia|].
  cbn [orb andb]. rewrite Z.mul_comm. symmetry.
  apply Z.div_exact; [apply Z.pow_nonzero; lia | exact Hm].
Qed.


(** Rounding keeps a positive integer positive. *)
Lemma round_pos (x : Z) : 1 <= x -> 1 <= Float32.round x.
Proof.
  intros Hx. unfold Float32.round. cbv zeta.
  destruct (Z.leb_spec (Z.log2 x - 23) 0) as [Hs|Hs]; [exact Hx|].
  pose proof (Z.log2_spec x ltac:(lia)) as [Hl _].
  set (s := Z.log2 x - 23) in *.
  assert (HP : 0 < 2 ^ s) by (apply Z.pow_pos_nonneg; lia).
  assert (Hm : 2 ^ 23 <= x / 2 ^ s).
  { apply Z.div_le_lower_bound; [exact HP|].
    rewrite Z.mul_comm, <- Z.pow_add_r by lia.
    replace (23 + s) with (Z.log2 x) by (unfold s; lia). exact Hl. }
  change (2 ^ 23) with 8388608 in Hm.
  destruct (_ || _); nia.
Qed.

(** The root in units of 2^-26 has 27 bits or more. *)
Lemma scaled_root_large (x : Z) : 1 <= x -> 2 ^ 26 <= Z.sqrt (x * 2 ^ 52).
Proof.
  intros Hx. apply Z.sqrt_le_square; [lia | lia |].
  change (2 ^ 26 * 2 ^ 26) with (2 ^ 52). lia.
Qed.

(** The root of a positive integer is at least one. *)
Lemma sqrt_trunc_pos (x : Z) : 1 <= x -> 1 <= Float32.trunc (Float32.sqrt x).
Proof.
  intros Hx. pose proof (scaled_root_large x Hx) as Hq.
  unfold Float32.sqrt. cbv zeta.
  set (q := Z.sqrt (x * 2 ^ 52)) in *.
  generalize (negb (q * q =? x * 2 ^ 52)). intros inexact.
  assert (Hlo : 26 <= Z.log2 q) by (apply Z.log2_le_pow2; lia).
  pose proof (Z.log2_spec q ltac:(lia)) as [Hl _].
  set (s := Z.log2 q - 23) in *.
  assert (Hs : 3 <= s) by (unfold s; lia).
  assert (HP : 0 < 2 ^ s) by (apply Z.pow_pos_nonneg; lia).
  assert (Hm : 2 ^ 23 <= q / 2 ^ s).
  { apply Z.div_le_lower_bound; [exact HP|].
    rewrite Z.mul_comm, <- Z.pow_add_r by lia.
    replace (23 + s) with (Z.log2 q) by (unfold s; lia). exact Hl. }
  set (m := q / 2 ^ s) in *.
  set (m' := if (2 ^ (s - 1) <? q mod 2 ^ s)
                || ((q mod 2 ^ s =? 2 ^ (s - 1)) && (inexact || Z.odd m))
             then m + 1 else m).
  assert (Hm' : 2 ^ 23 <= m') by (unfold m'; destruct (_ || _); lia).
  unfold Float32.trunc. destruct (Z.leb_spec 0 (s - 26)).
  - assert (0 < 2 ^ (s - 26)) by (apply Z.pow_pos_nonneg; lia).
    change (2 ^ 23) with 8388608 in Hm'. nia.
  - assert (0 < 2 ^ (- (s - 26)) <= 2 ^ 23).
    { split; [apply Z.pow_pos_nonneg; lia | apply Z.pow_le_mono_r; lia]. }
    apply Z.div_le_lower_bound; lia.
Qed.

Lemma sqrt_trunc_nonneg (x : Z) : 0 <= x -> 0 <= Float32.trunc (Float32.sqrt x).
Proof.
  intros Hx. destruct (Z.eq_dec x 0) as [->|Hz]; [vm_compute; discriminate|].
  pose proof (sqrt_trunc_pos x ltac:(lia)). lia.
Qed.

(** The root of the square of an integer that [float32] holds is that
    integer. *)
Lemma sqrt_trunc_square (d : Z) :
  0 <= d -> Float32.holds d = true -> Float32.trunc (Float32.sqrt (d * d)) = d.
Proof.
  intros Hd Hh. destruct (Z.eq_dec d 0) as [->|Hz]; [reflexivity|].
  unfold Float32.sqrt. cbv zeta.
  replace (d * d * 2 ^ 52) with ((d * 2 ^ 26) * (d * 2 ^ 26))
    by (change (2 ^ 52) with (2 ^ 26 * 2 ^ 26); ring).
  rewrite Z.sqrt_square by lia. rewrite Z.eqb_refl. cbn [negb orb].
  rewrite Z.log2_mul_pow2 by lia.
  unfold Float32.holds in Hh. cbv zeta in Hh. rewrite Z.abs_eq in Hh by lia.
  set (t := Z.log2 d - 23) in *.
  replace (26 + Z.log2 d - 23) with (t + 26) by (unfold t; lia).
  pose proof (Z.log2_nonneg d) as Hl.
  assert (Ht : -23 <= t) by (unfold t; lia).
  assert (Hhalf : 0 < 2 ^ (t + 26 - 1)) by (apply Z.pow_pos_nonneg; lia).
  assert (HP : 0 < 2 ^ (t + 26)) by (apply Z.pow_pos_nonneg; lia).
  assert (Hdiv : exists k, d * 2 ^ 26 = k * 2 ^ (t + 26)
                           /\ Float32.trunc (k, t + 26 - 26) = d).
  { destruct (Z.leb_spec t 0) as [Hle|Hgt].
    - exists (d * 2 ^ (- t)). split.
      + rewrite <- Z.mul_assoc, <- Z.pow_add_r by lia. do 2 f_equal. lia.
      + unfold Float32.trunc. replace (t + 26 - 26) with t by lia.
        destruct (Z.leb_spec 0 t).
        * replace t with 0 by lia. simpl. lia.
        * apply Z.div_mul. apply Z.pow_nonzero; lia.
    - apply Z.eqb_eq in Hh. exists (d / 2 ^ t).
      assert (Ed : d = 2 ^ t * (d / 2 ^ t)).
      { apply Z.div_exact; [apply Z.pow_nonzero; lia | exact Hh]. }
      split.
      + rewrite Z.pow_add_r by lia. rewrite Ed at 1. ring.
      + unfold Float32.trunc. replace (t + 26 - 26) with t by lia.
        destruct (Z.leb_spec 0 t); lia. }
  destruct Hdiv as (k & Ek & Hk). rewrite Ek.
  rewrite Z.div_mul, Z.mod_mul by lia.
  destruct (Z.ltb_spec (2 ^ (t + 26 - 1)) 0); [lia|].
  destruct (Z.eqb_spec 0 (2 ^ (t + 26 - 1))); [lia|].
  cbn [andb orb]. exact Hk.
Qed.



End Float32Facts.

Lemma int_dist_nonneg (a b : point) : 0 <= int_dist a b.
Proof.
  unfold int_dist. cbv zeta. pose proof (dist2_nonneg a b) as Hn.
  destruct (_ && _); [|apply Z.sqrt_nonneg].
  destruct (Z.eq_dec (dist2 a b) 0) as [->|Hz]; [vm_compute; discriminate|].
  pose proof (Float32Facts.round_pos (dist2 a b) ltac:(lia)).
  apply Float32Facts.sqrt_trunc_nonneg. lia.
Qed.

Lemma int_dist_pos_iff (a b : point) : 1 <= int_dist a b <-> a <> b.
Proof.
  pose proof (dist2_nonneg a b) as Hn. rewrite <- dist2_zero_iff.
  unfold int_dist. cbv zeta. destruct (_ && _).
  - split.
    + intros H E. rewrite E in H. vm_compute in H. congruence.
    + intros H. apply Float32Facts.sqrt_trunc_pos, Float32Facts.round_pos. lia.
  - pose proof (Z.sqrt_pos (dist2 a b)). lia.
Qed.




(** C8, as amended: the computed width and height are never negative;
    the width is at least 1 exactly when the two bottom corners or the two
    top corners of the ordered rectangle differ, and the height is at least
    1 exactly when the two right corners or the two left corners differ. *)
Theorem output_size_at_least_one_iff (rect : Rect) :
  0 <= fst (output_size rect) /\ 0 <= snd (output_size rect)
  /\ (1 <= fst (output_size rect) <-> br rect <> bl rect \/ tr rect <> tl rect)
  /\ (1 <= snd (output_size rect) <-> tr rect <> br rect \/ tl rect <> bl rect).
Proof.
  unfold output_size. cbn [fst snd].
  pose proof (int_dist_nonneg (br rect) (bl rect)).
  pose proof (int_dist_nonneg (tr rect) (tl rect)).
  pose proof (int_dist_nonneg (tr rect) (br rect)).
  pose proof (int_dist_nonneg (tl rect) (bl rect)).
  rewrite <- !int_dist_pos_iff. lia.
Qed.

(** C8 as worded fails on the kite: the same corner (5, 0) is first in
    both x + y and y - x, and (5, 10) is last in both, so both horizontal
    sides of the ordered rectangle collapse and the computed width is 0. *)
Lemma output_size_kite_counterexample :
  exists rect, order_points kite = Ok rect
    /\ output_size rect = (0, 10)
    /\ ~ (1 <= fst (output_size rect) /\ 1 <= snd (output_size rect)).
Proof.
  eexists. split; [reflexivity|]. split; [reflexivity|].
  cbn. lia.
Qed.

(** ** Contour detection *)

Section SortedReverse.

Context {A : Type} (key : A -> Q).

Lemma insert_desc_perm (x : A) (l : list A) : Permutation (x :: l) (insert_desc key x l).
Proof.
  induction l as [|y l IH]; simpl; [apply Permutation_refl|].
  destruct (Qle_bool (key y) (key x)); [apply Permutation_refl|].
  eapply perm_trans; [apply perm_swap | apply perm_skip, IH].
Qed.

Lemma sorted_reverse_perm (l : list A) : Permutation l (sorted_reverse key l).
Proof.
  induction l as [|x l IH]; simpl; [apply perm_nil|].
  eapply perm_trans; [apply perm_skip, IH | apply insert_desc_perm].
Qed.

Let desc (a b : A) : Prop := (key b <= key a)%Q.

Lemma insert_desc_sorted (x : A) (l : list A) :
  StronglySorted desc l -> StronglySorted desc (insert_desc key x l).
Proof.
  induction l as [|y l IH]; simpl; intros Hs.
  - constructor; [constructor | constructor].
  - inversion Hs as [|y' l' Hs' Hall]; subst.
    destruct (Qle_bool (key y) (key x)) eqn:E.
    + apply Qle_bool_iff in E.
      constructor; [assumption|].
      constructor; [exact E|].
      eapply Forall_impl; [|exact Hall].
      intros b Hb. unfold desc in *. eapply Qle_trans; eassumption.
    + assert (Hlt : (key x < key y)%Q).
      { apply Qnot_le_lt. intros H. apply Qle_bool_iff in H. congruence. }
      constructor; [apply IH; assumption|].
      eapply Permutation_Forall; [apply insert_desc_perm|].
      constructor; [apply Qlt_le_weak, Hlt | exact Hall].
Qed.

Lemma sorted_reverse_sorted (l : list A) : StronglySorted desc (sorted_reverse key l).
Proof.
  induction l as [|x l IH]; simpl; [constructor | now apply insert_desc_sorted].
Qed.

End SortedReverse.

Lemma nth_error_firstn_iff {A : Type} (n i : nat) (l : list A) (a : A) :
  nth_error (firstn n l) i = Some a <-> (i < n)%nat /\ nth_error l i = Some a.
Proof.
  revert i l. induction n as [|n IH]; intros i l; simpl.
  - destruct i; simpl; split; try discriminate; intros [H _]; lia.
  - destruct l as [|b l]; simpl.
    + destruct i; simpl; split; try discriminate; intros [_ H]; discriminate.
    + destruct i as [|i]; simpl.
      * split; [intros H; split; [lia | exact H] | intros [_ H]; exact H].
      * rewrite IH. split; intros [H1 H2]; split; try assumption; lia.
Qed.

Section Detection.

Context {cv : Cv2}.

Lemma search_quad_some (l : list contour) (a : contour) :
  search_quad l = Some a <->
  exists i c, nth_error l i = Some c /\ a = approx_two_percent c
    /\ length a = 4%nat
    /\ (forall j c', (j < i)%nat -> nth_error l j = Some c' ->
          length (approx_two_percent c') <> 4%nat).
Proof.
  induction l as [|c l IH]; simpl.
  - split; [discriminate | intros ([|i] & c & H & _); discriminate].
  - fold (approx_two_percent c).
    destruct (Nat.eqb_spec (length (approx_two_percent c)) 4) as [E|E].
    + split.
      * intros H. injection H as <-. exists 0%nat, c. repeat split; try assumption.
        intros j c' Hj. lia.
      * intros ([|i] & c0 & Hn & -> & Hlen & Hfirst); simpl in Hn.
        -- injection Hn as <-. reflexivity.
        -- exfalso. apply (Hfirst 0%nat c); [lia | reflexivity | exact E].
    + rewrite IH. split.
      * intros (i & c0 & Hn & Ha & Hlen & Hfirst).
        exists (S i), c0. repeat split; try assumption.
        intros [|j] c' Hj Hc'; simpl in Hc'.
        -- injection Hc' as <-. exact E.
        -- apply (Hfirst j); [lia | assumption].
      * intros ([|i] & c0 & Hn & Ha & Hlen & Hfirst); simpl in Hn.
        -- injection Hn as <-. subst a. contradiction.
        -- exists i, c0. repeat split; try assumption.
           intros j c' Hj Hc'. apply (Hfirst (S j)); [lia | assumption].
Qed.

Lemma search_quad_none (l : list contour) :
  search_quad l = None <->
  forall i c, nth_error l i = Some c -> length (approx_two_percent c) <> 4%nat.
Proof.
  induction l as [|c l IH]; simpl.
  - split; [intros _ [|i] c H; discriminate | reflexivity].
  - fold (approx_two_percent c).
    destruct (Nat.eqb_spec (length (approx_two_percent c)) 4) as [E|E].
    + split; [discriminate|]. intros H. exfalso. apply (H 0%nat c); [reflexivity | exact E].
    + rewrite IH. split.
      * intros H [|i] c' Hc'; simpl in Hc'.
        -- injection Hc' as <-. exact E.
        -- apply (H i), Hc'.
      * intros H i c' Hc'. apply (H (S i)), Hc'.
Qed.

(** C3: the contours are ranked by area, largest first (a stable
    rearrangement of the extracted ones); the result is the 2%-of-perimeter
    approximation of the first of the five top-ranked contours whose
    approximation has exactly four vertices; and the result is "no contour"
    exactly when no contour was extracted or none of the (at most) five
    top-ranked approximations has exactly four vertices. *)
Theorem detect_document_contour_spec (processed_image : plane) :
  let cnts := findContours processed_image in
  let ranked := sorted_reverse contourArea cnts in
  Permutation cnts ranked
  /\ area_descending ranked
  /\ (forall a, detect_document_contour processed_image = Some a <->
        exists i c, (i < 5)%nat /\ nth_error ranked i = Some c
          /\ a = approx_two_percent c /\ length a = 4%nat
          /\ (forall j c', (j < i)%nat -> nth_error ranked j = Some c' ->
                length (approx_two_percent c') <> 4%nat))
  /\ (detect_document_contour processed_image = None <->
        cnts = []
        \/ (forall i c, (i < 5)%nat -> nth_error ranked i = Some c ->
              length (approx_two_percent c) <> 4%nat)).
Proof.
  intros cnts ranked.
  assert (Hdet : cnts <> [] ->
            detect_document_contour processed_image = search_quad (firstn 5 ranked)).
  { unfold detect_document_contour. fold cnts. fold ranked.
    destruct cnts; [congruence | reflexivity]. }
  split; [apply sorted_reverse_perm|].
  split; [apply sorted_reverse_sorted|].
  split.
  - intros a. destruct cnts as [|c0 cnts'] eqn:Ec.
    + unfold detect_document_contour. fold cnts. rewrite Ec.
      split; [discriminate|].
      intros (i & c & _ & Hn & _). subst ranked. simpl in Hn.
      destruct i; discriminate.
    + rewrite Hdet by discriminate. rewrite search_quad_some. split.
      * intros (i & c & Hn & Ha & Hlen & Hfirst).
        apply nth_error_firstn_iff in Hn. destruct Hn as [Hi Hn].
        exists i, c. repeat split; try assumption.
        intros j c' Hj Hc'. apply (Hfirst j); [assumption|].
        apply nth_error_firstn_iff. split; [lia | assumption].
      * intros (i & c & Hi & Hn & Ha & Hlen & Hfirst).
        exists i, c. repeat split; try assumption.
        -- apply nth_error_firstn_iff. split; assumption.
        -- intros j c' Hj Hc'. apply nth_error_firstn_iff in Hc'.
           apply (Hfirst j); [assumption | apply Hc'].
  - destruct cnts as [|c0 cnts'] eqn:Ec.
    + unfold detect_document_contour. fold cnts. rewrite Ec.
      split; [intros _; left; reflexivity | reflexivity].
    + rewrite Hdet by discriminate. rewrite search_quad_none. split.
      * intros H. right. intros i c Hi Hn. apply (H i).
        apply nth_error_firstn_iff. split; assumption.
      * intros [H|H]; [discriminate|].
        intros i c Hn. apply nth_error_firstn_iff in Hn. apply (H i); apply Hn.
Qed.

End Detection.

(** ** Perspective rectifier *)


Lemma reference_warp_returns_dsize : warp_returns_dsize Reference.cv.
Proof.
  intros img M w h out Hw Hh. simpl. unfold Reference.warp.
  destruct (Z.leb_spec w 0); [lia|]. destruct (Z.leb_spec h 0); [lia|]. simpl.
  assert (Hh' : exists k, Z.to_nat h = S k) by (exists (Nat.pred (Z.to_nat h)); lia).
  destruct Hh' as [k Hk].
  destruct img as [g|c].
  - destruct (is_empty g); [discriminate|]. intros E. injection E as <-.
    unfold Reference.shifted. simpl. unfold rows, cols.
    rewrite length_map, length_seq. split; [|reflexivity].
    rewrite Hk. simpl. now rewrite length_map, length_seq.
  - destruct (is_empty c); [discriminate|]. intros E. injection E as <-.
    unfold Reference.shifted. simpl. unfold rows, cols.
    rewrite length_map, length_seq. split; [|reflexivity].
    rewrite Hk. simpl. now rewrite length_map, length_seq.
Qed.

Section Rectifier.

Context {cv : Cv2}.


End Rectifier.




(** ** Shapes and value ranges of the written-out filters *)

Lemma mapi_from_length {A B : Type} (f : nat -> A -> B) (l : list A) :
  forall i, length (mapi_from f i l) = length l.
Proof. induction l as [|a l IH]; intros i; simpl; [reflexivity | now rewrite IH]. Qed.

Lemma mapi_from_Forall {A B : Type} (f : nat -> A -> B) (P : B -> Prop) (l : list A) :
  (forall i a, P (f i a)) -> forall i, Forall P (mapi_from f i l).
Proof.
  intros H. induction l as [|a l IH]; intros i; simpl; constructor; [apply H | apply IH].
Qed.

Lemma is_empty_false_iff {A : Type} (a : list (list A)) :
  is_empty a = false <-> rows a <> 0%nat /\ cols a <> 0%nat.
Proof.
  unfold rows, cols. destruct a as [|[|x r] a']; simpl; split;
    try discriminate; try reflexivity; try (intros [H1 H2]; congruence).
  intros _. split; discriminate.
Qed.

(** A pixel-wise filter that may look at the position keeps the shape. *)
Lemma mapi2_shape {A B : Type} (F : nat -> nat -> A -> B) (g : list (list A)) :
  let out := mapi (fun y row => mapi (F y) row) g in
  rows out = rows g /\ cols out = cols g.
Proof.
  unfold mapi, rows, cols. split; [apply mapi_from_length|].
  destruct g as [|r g']; simpl; [reflexivity | apply mapi_from_length].
Qed.

Lemma mapi2_Forall {A B : Type} (F : nat -> nat -> A -> B) (P : B -> Prop)
  (g : list (list A)) :
  (forall y x a, P (F y x a)) ->
  Forall (Forall P) (mapi (fun y row => mapi (F y) row) g).
Proof.
  intros H. unfold mapi. apply mapi_from_Forall. intros y row.
  apply mapi_from_Forall. intros x a. apply H.
Qed.

Lemma same_shape_empty {A B : Type} (a : list (list A)) (b : list (list B)) :
  rows b = rows a -> cols b = cols a -> is_empty b = is_empty a.
Proof.
  intros Hr Hc.
  destruct (is_empty a) eqn:Ea.
  - destruct (is_empty b) eqn:Eb; [reflexivity|].
    apply is_empty_false_iff in Eb. rewrite Hr, Hc in Eb.
    apply is_empty_false_iff in Eb. congruence.
  - apply is_empty_false_iff. rewrite Hr, Hc. now apply is_empty_false_iff.
Qed.

Lemma mapM_Forall2 {A B : Type} (f : A -> result B) (l : list A) (bs : list B) :
  mapM f l = Ok bs -> Forall2 (fun a b => f a = Ok b) l bs.
Proof.
  revert bs. induction l as [|a l IH]; simpl; intros bs H.
  - injection H as <-. constructor.
  - destruct (f a) as [b|] eqn:Ea; [|discriminate]. cbn [bind] in H.
    destruct (mapM f l) as [bs'|] eqn:El; [|discriminate]. cbn [bind] in H.
    injection H as <-. constructor; [assumption | now apply IH].
Qed.

Lemma mapM_defined {A B : Type} (f : A -> result B) (l : list A) :
  Forall (fun a => exists b, f a = Ok b) l -> exists bs, mapM f l = Ok bs.
Proof.
  induction 1 as [|a l [b Hb] _ [bs Hbs]]; simpl; [eauto|].
  rewrite Hb, Hbs. cbn [bind]. eauto.
Qed.

Lemma mapM_map_Ok {A B : Type} (f : A -> result B) (g : A -> B) (l : list A) :
  (forall a, In a l -> f a = Ok (g a)) -> mapM f l = Ok (map g l).
Proof.
  induction l as [|a l IH]; intros H; simpl; [reflexivity|].
  rewrite (H a (or_introl eq_refl)). cbn [bind].
  rewrite IH by (intros b Hb; apply H; now right). reflexivity.
Qed.

Lemma sort_values_In (x : Z) (l : list Z) : In x (sort_values l) -> In x l.
Proof.
  assert (Hins : forall y l', In x (insert_sorted y l') -> x = y \/ In x l').
  { intros y l'. induction l' as [|z l' IH]; simpl.
    - intros [H|[]]; auto.
    - destruct (y <=? z); simpl.
      + intros [H|[H|H]]; auto.
      + intros [H|H]; auto. destruct (IH H); auto. }
  induction l as [|a l IH]; simpl; [auto|].
  intros H. destruct (Hins _ _ H); auto.
Qed.

Lemma median_In_or_zero (l : list Z) : median l = 0 \/ In (median l) l.
Proof.
  unfold median.
  destruct (nth_in_or_default (length l / 2) (sort_values l) 0) as [H|H].
  - right. now apply sort_values_In.
  - left. exact H.
Qed.

Lemma binary_plane_nth (g : plane) (i j : nat) :
  binary_plane g -> binary (nth j (nth i g []) 0).
Proof.
  intros Hg.
  destruct (nth_in_or_default i g []) as [Hrow|Hrow].
  - assert (Hr : Forall binary (nth i g [])).
    { unfold binary_plane in Hg. rewrite Forall_forall in Hg. now apply Hg. }
    destruct (nth_in_or_default j (nth i g []) 0) as [Hv|Hv].
    + rewrite Forall_forall in Hr. now apply Hr.
    + rewrite Hv. left. reflexivity.
  - rewrite Hrow. destruct j; left; reflexivity.
Qed.

Lemma window_binary (g : plane) (r y x : nat) :
  binary_plane g -> Forall binary (window g r y x).
Proof.
  intros Hg. unfold window. apply Forall_flat_map.
  apply Forall_forall. intros dy _.
  apply Forall_map. apply Forall_forall. intros dx _.
  unfold at_replicate. now apply binary_plane_nth.
Qed.

Lemma medianBlur_binary (src out : plane) (ksize : nat) :
  binary_plane src -> medianBlur src ksize = Ok out -> binary_plane out.
Proof.
  intros Hsrc. unfold medianBlur. destruct (is_empty src); [discriminate|].
  intros H. injection H as <-.
  apply (mapi2_Forall (fun y x _ => median (window src (ksize / 2) y x))).
  intros y x _.
  destruct (median_In_or_zero (window src (ksize / 2) y x)) as [E|Hin].
  - left. exact E.
  - pose proof (window_binary src (ksize / 2) y x Hsrc) as Hw.
    rewrite Forall_forall in Hw. now apply Hw.
Qed.

Lemma medianBlur_shape (src : plane) (ksize : nat) :
  is_empty src = false ->
  exists out, medianBlur src ksize = Ok out
    /\ rows out = rows src /\ cols out = cols src.
Proof.
  intros He. unfold medianBlur. rewrite He. eexists. split; [reflexivity|].
  apply (mapi2_shape (fun y x _ => median (window src (ksize / 2) y x))).
Qed.

Lemma cvtColor_GRAY2BGR_shape (src : plane) :
  rows (cvtColor_GRAY2BGR src) = rows src /\ cols (cvtColor_GRAY2BGR src) = cols src.
Proof.
  unfold cvtColor_GRAY2BGR, rows, cols. split; [apply length_map|].
  destruct src as [|r src']; simpl; [reflexivity | apply length_map].
Qed.

Lemma cvtColor_GRAY2BGR_gray (src : plane) : gray_bgr (Arr3 (cvtColor_GRAY2BGR src)).
Proof.
  simpl. unfold cvtColor_GRAY2BGR. apply Forall_map, Forall_forall. intros row _.
  apply Forall_map, Forall_forall. intros v _. now exists v.
Qed.

Lemma cvtColor_GRAY2BGR_binary (src : plane) :
  binary_plane src -> binary_image (Arr3 (cvtColor_GRAY2BGR src)).
Proof.
  intros Hsrc. simpl. unfold cvtColor_GRAY2BGR.
  apply Forall_map. eapply Forall_impl; [|exact Hsrc]. intros row Hrow.
  apply Forall_map. eapply Forall_impl; [|exact Hrow]. intros v Hv.
  constructor; [exact Hv|]. constructor; [exact Hv|].
  constructor; [exact Hv | constructor].
Qed.

Section Filters.

Context {cv : Cv2}.

Lemma adaptiveThreshold_binary (src out : plane) (blockSize : nat) (C : Z) :
  adaptiveThreshold src 255 blockSize C = Ok out -> binary_plane out.
Proof.
  unfold adaptiveThreshold. destruct (is_empty src); [discriminate|].
  intros H. injection H as <-.
  apply (mapi2_Forall (fun y x v =>
           if v >? gaussian_mean src blockSize y x - C then 255 else 0)).
  intros y x v. destruct (v >? _); [right | left]; reflexivity.
Qed.

Lemma adaptiveThreshold_shape (src : plane) (maxValue : Z) (blockSize : nat) (C : Z) :
  is_empty src = false ->
  exists out, adaptiveThreshold src maxValue blockSize C = Ok out
    /\ rows out = rows src /\ cols out = cols src.
Proof.
  intros He. unfold adaptiveThreshold. rewrite He. eexists. split; [reflexivity|].
  apply (mapi2_shape (fun y x v =>
           if v >? gaussian_mean src blockSize y x - C then maxValue else 0)).
Qed.

Lemma gray_of_pixel_defined (p : list Z) :
  length p = 3%nat -> exists v, gray_of_pixel p = Ok v.
Proof.
  destruct p as [|b [|g [|r [|a p]]]]; try discriminate. simpl. eauto.
Qed.

Lemma cvtColor_BGR2GRAY_shape (c : cube) :
  well_formed_bgr (Arr3 c) ->
  exists gray, cvtColor_BGR2GRAY (Arr3 c) = Ok gray
    /\ rows gray = rows c /\ cols gray = cols c.
Proof.
  intros (He & _ & Hpx). simpl. rewrite He.
  destruct (mapM_defined (mapM gray_of_pixel) c) as [gray Hg].
  { eapply Forall_impl; [|exact Hpx]. intros row Hrow. apply mapM_defined.
    eapply Forall_impl; [|exact Hrow]. intros p. apply gray_of_pixel_defined. }
  exists gray. split; [exact Hg|].
  apply mapM_Forall2 in Hg. unfold rows, cols. split.
  - symmetry. eapply Forall2_length; eassumption.
  - destruct Hg as [|row grow c' g' Hrow _]; simpl; [reflexivity|].
    apply mapM_Forall2 in Hrow. symmetry. eapply Forall2_length; eassumption.
Qed.

End Filters.

(** ** Enhancement and the document pipeline *)

Section Pipeline.

Context {cv : Cv2}.

(** [enhance_image], step by step. *)
Lemma enhance_image_steps (image out : ndarray) :
  enhance_image image = Ok out ->
  exists gray adaptive_thresh denoised,
    match image with
    | Arr3 _ => cvtColor_BGR2GRAY image = Ok gray
    | Arr2 g => gray = g
    end
    /\ adaptiveThreshold gray 255 11 2 = Ok adaptive_thresh
    /\ medianBlur adaptive_thresh 3 = Ok denoised
    /\ out = match image with
             | Arr3 _ => Arr3 (cvtColor_GRAY2BGR denoised)
             | Arr2 _ => Arr2 denoised
             end.
Proof.
  unfold enhance_image. intros H.
  destruct image as [g|c].
  - cbn [bind] in H.
    destruct (adaptiveThreshold g 255 11 2) as [t|] eqn:Et; [|discriminate]. cbn [bind] in H.
    destruct (medianBlur t 3) as [d|] eqn:Ed; [|discriminate]. cbn [bind] in H.
    injection H as <-. exists g, t, d. auto.
  - destruct (cvtColor_BGR2GRAY (Arr3 c)) as [g|] eqn:Eg; [|discriminate]. cbn [bind] in H.
    destruct (adaptiveThreshold g 255 11 2) as [t|] eqn:Et; [|discriminate]. cbn [bind] in H.
    destruct (medianBlur t 3) as [d|] eqn:Ed; [|discriminate]. cbn [bind] in H.
    injection H as <-. exists g, t, d. auto.
Qed.

Lemma enhance_image_binary (image out : ndarray) :
  enhance_image image = Ok out ->
  binary_image out /\ ndim out = ndim image /\ (ndim image = 3%nat -> gray_bgr out).
Proof.
  intros H. destruct (enhance_image_steps _ _ H) as (g & t & d & Hg & Ht & Hd & ->).
  assert (Hb : binary_plane d).
  { eapply medianBlur_binary; [|exact Hd]. eapply adaptiveThreshold_binary. exact Ht. }
  destruct image as [g0|c].
  - split; [exact Hb|]. split; [reflexivity | discriminate].
  - split; [now apply cvtColor_GRAY2BGR_binary|].
    split; [reflexivity|]. intros _. apply cvtColor_GRAY2BGR_gray.
Qed.

Lemma enhance_image_well_formed (image : ndarray) :
  well_formed_bgr image ->
  exists out, enhance_image image = Ok out
    /\ width out = width image /\ height out = height image.
Proof.
  destruct image as [g|c]; [intros []|]. intros Hwf.
  destruct (cvtColor_BGR2GRAY_shape c Hwf) as (gray & Hg & Hgr & Hgc).
  assert (He : is_empty gray = false).
  { rewrite (same_shape_empty c gray Hgr Hgc). apply Hwf. }
  destruct (adaptiveThreshold_shape gray 255 11 2 He) as (t & Ht & Htr & Htc).
  assert (Het : is_empty t = false) by (now rewrite (same_shape_empty gray t Htr Htc)).
  destruct (medianBlur_shape t 3 Het) as (d & Hd & Hdr & Hdc).
  exists (Arr3 (cvtColor_GRAY2BGR d)).
  unfold enhance_image. rewrite Hg. cbn [bind]. rewrite Ht. cbn [bind].
  rewrite Hd. cbn [bind]. split; [reflexivity|].
  destruct (cvtColor_GRAY2BGR_shape d) as [Hr Hc]. simpl. split; congruence.
Qed.

Lemma process_document_found (image : ndarray) (pre : plane) (c : contour) :
  preprocess_image image = Ok pre ->
  detect_document_contour pre = Some c ->
  process_document_body image
  = (corrected <- correct_perspective image c ;; enhance_image corrected).
Proof.
  intros Hpre Hdet. unfold process_document_body. rewrite Hpre. cbn [bind].
  rewrite Hdet. destruct (correct_perspective image c) as [corrected|]; cbn [bind];
    [|reflexivity].
  destruct (enhance_image corrected); reflexivity.
Qed.

Lemma process_document_not_found (image : ndarray) (pre : plane) :
  preprocess_image image = Ok pre ->
  detect_document_contour pre = None ->
  process_document_body image = enhance_image image.
Proof.
  intros Hpre Hdet. unfold process_document_body. rewrite Hpre. cbn [bind].
  now rewrite Hdet.
Qed.

Lemma preprocess_image_well_formed (image : ndarray) :
  well_formed_bgr image -> exists pre, preprocess_image image = Ok pre.
Proof.
  destruct image as [g|c]; [intros []|]. intros Hwf.
  destruct (cvtColor_BGR2GRAY_shape c Hwf) as (gray & Hg & _).
  unfold preprocess_image. rewrite Hg. cbn [bind]. eauto.
Qed.


(** C5: on a well-formed input on which contour detection finds no
    quadrilateral, preprocessing succeeds and [process_document] returns
    [enhance_image] of the original buffer, unrectified, of the same width
    and height as the input; no exception is raised. *)
Theorem process_document_fallback (image : ndarray) :
  well_formed_bgr image ->
  (forall pre, preprocess_image image = Ok pre -> detect_document_contour pre = None) ->
  exists pre out,
    preprocess_image image = Ok pre
    /\ enhance_image image = Ok out
    /\ process_document image = Some out
    /\ width out = width image /\ height out = height image.
Proof.
  intros Hwf Hnone.
  destruct (preprocess_image_well_formed image Hwf) as [pre Hpre].
  destruct (enhance_image_well_formed image Hwf) as (out & Hout & Hw & Hh).
  exists pre, out. repeat split; try assumption.
  unfold process_document.
  rewrite (process_document_not_found image pre Hpre (Hnone pre Hpre)), Hout.
  reflexivity.
Qed.

Lemma process_document_binary (image out : ndarray) :
  process_document image = Some out -> binary_image out.
Proof.
  unfold process_document.
  destruct (process_document_body image) as [r|] eqn:Hbody; [|discriminate].
  intros H. injection H as ->.
  unfold process_document_body in Hbody.
  destruct (preprocess_image image) as [pre|]; [|discriminate]. cbn [bind] in Hbody.
  destruct (detect_document_contour pre) as [c|].
  - destruct (correct_perspective image c) as [corrected|]; [|discriminate].
    cbn [bind] in Hbody.
    destruct (enhance_image corrected) as [e|] eqn:He; [|discriminate].
    cbn [bind] in Hbody. injection Hbody as <-.
    apply (enhance_image_binary corrected e He).
  - apply (enhance_image_binary image out Hbody).
Qed.

(** The buffer returned is never the denoise / sharpen / CLAHE
    enhancement of the rectified buffer when that enhancement has a sample
    other than 0 and 255. *)
Lemma process_document_not_enhance_frame (image corrected : ndarray) :
  ~ binary_image (_enhance_frame corrected) ->
  process_document image <> Some (_enhance_frame corrected).
Proof. intros Hnb H. apply Hnb. exact (process_document_binary _ _ H). Qed.

(** C9: whatever [enhance_image] returns is black and white: every sample
    of every channel is 0 or 255; the result has as many dimensions as the
    input, and for a three-dimensional input its three channels are equal
    at every pixel.  Hence whatever [process_document] returns, on the
    rectified and on the fallback path, is black and white. *)
Theorem enhance_image_black_and_white :
  (forall image out, enhance_image image = Ok out ->
     binary_image out /\ ndim out = ndim image
     /\ (ndim image = 3%nat -> gray_bgr out))
  /\ (forall image out, process_document image = Some out -> binary_image out).
Proof. split; [exact enhance_image_binary | exact process_document_binary]. Qed.

End Pipeline.

(** *** Runs of the pipeline on the reference instance *)




(** On the reference instance the page is found in the photograph and
    rectified to a buffer of 100 by 80 pixels that keeps the cream of the
    page. *)
Example photographed_page_rectified :
  exists pre c row,
    preprocess_image (cv := Reference.cv) photographed_page = Ok pre
    /\ detect_document_contour (cv := Reference.cv) pre
       = Some [ (49, 39); (149, 39); (149, 119); (49, 119) ]
    /\ correct_perspective (cv := Reference.cv) photographed_page
         [ (49, 39); (149, 39); (149, 119); (49, 119) ] = Ok (Arr3 c)
    /\ rows c = 80%nat /\ cols c = 100%nat
    /\ nth_error c 5 = Some row /\ nth_error row 5 = Some cream.
Proof.
  eexists. eexists. eexists.
  split; [vm_compute; reflexivity|]. split; [vm_compute; reflexivity|].
  split; [vm_compute; reflexivity|]. split; [reflexivity|]. split; [reflexivity|].
  split; [vm_compute; reflexivity|]. reflexivity.
Qed.

Lemma process_document_fallback_witness :
  exists pre out,
    preprocess_image (cv := Reference.cv) gray40 = Ok pre
    /\ enhance_image (cv := Reference.cv) gray40 = Ok out
    /\ process_document (cv := Reference.cv) gray40 = Some out
    /\ width out = width gray40 /\ height out = height gray40.
Proof.
  apply (process_document_fallback (cv := Reference.cv) gray40).
  - simpl. repeat split; repeat constructor.
  - intros pre H. vm_compute in H. injection H as <-. reflexivity.
Defined.

Lemma enhance_image_black_and_white_witness :
  binary_image white_3x3 /\ ndim white_3x3 = ndim gray40
  /\ (ndim gray40 = 3%nat -> gray_bgr white_3x3).
Proof.
  apply (proj1 (enhance_image_black_and_white (cv := Reference.cv)) gray40 white_3x3).
  reflexivity.
Defined.

(** ** Sharpness selection and burst capture *)

Lemma Qlt_bool_iff (a b : Q) : Qlt_bool a b = true <-> (a < b)%Q.
Proof.
  unfold Qlt_bool. rewrite negb_true_iff. split.
  - intros H. apply Qnot_le_lt. intros Hle. apply Qle_bool_iff in Hle. congruence.
  - intros H. destruct (Qle_bool b a) eqn:E; [|reflexivity].
    apply Qle_bool_iff in E. exfalso. exact (Qlt_not_le _ _ H E).
Qed.

Lemma Qsum_nonneg (l : list Q) :
  Forall (fun q => (0 <= q)%Q) l -> (0 <= Reference.Qsum l)%Q.
Proof.
  induction 1 as [|q l Hq _ IH]; simpl; [apply Qle_refl|].
  replace 0%Q with (0 + 0)%Q by reflexivity. now apply Qplus_le_compat.
Qed.

Lemma Qsquare_nonneg (q : Q) : (0 <= q * q)%Q.
Proof. destruct q as [n d]. unfold Qle, Qmult. simpl. nia. Qed.

(** A variance computed without rounding is never negative. *)
Lemma exact_variance_nonneg (a : plane) : (0 <= Reference.exact_variance a)%Q.
Proof.
  unfold Reference.exact_variance. unfold Qdiv. apply Qmult_le_0_compat.
  - apply Qsum_nonneg, Forall_map, Forall_forall. intros x _. apply Qsquare_nonneg.
  - apply Qinv_le_0_compat. unfold Qle. simpl. lia.
Qed.

Lemma reference_variance_nonneg : variance_nonneg Reference.cv.
Proof. intros a _. apply exact_variance_nonneg. Qed.

(** *** The Laplacian as second differences *)

Lemma mapi_from_seq {A B : Type} (f : nat -> A -> B) (d : A) (l : list A) : forall i,
  mapi_from f i l = map (fun k => f k (nth (k - i)%nat l d)) (seq i (length l)).
Proof.
  induction l as [|a l IH]; intros i; simpl; [reflexivity|].
  rewrite Nat.sub_diag. f_equal. rewrite IH. apply map_ext_in.
  intros k Hk. apply in_seq in Hk.
  replace (k - i)%nat with (S (k - S i)) by lia. reflexivity.
Qed.

Lemma mapi_seq {A B : Type} (f : nat -> A -> B) (d : A) (l : list A) :
  mapi f l = map (fun k => f k (nth k l d)) (seq 0 (length l)).
Proof.
  unfold mapi. rewrite (mapi_from_seq f d l 0). apply map_ext.
  intros k. now rewrite Nat.sub_0_r.
Qed.

(** One step outside the image, the border rule of OpenCV and the mirror
    of the specification name the same sample. *)
Lemma reflect101_mirror (n : nat) (i : Z) :
  -1 <= i <= Z.of_nat n -> reflect101 n i = Z.to_nat (mirror (Z.of_nat n) i).
Proof.
  intros Hi. unfold reflect101, mirror.
  destruct (Nat.eqb_spec n 1) as [->|Hn]; [reflexivity|].
  destruct (Z.eqb_spec (Z.of_nat n) 1); [lia|].
  destruct (Z.ltb_spec i 0).
  - destruct (Z.eqb_spec i (-1)); [subst i; reflexivity | lia].
  - destruct (Z.eqb_spec i (-1)); [lia|].
    destruct (Z.leb_spec (Z.of_nat n) i), (Z.eqb_spec i (Z.of_nat n)); lia.
Qed.

Lemma mirror_inside (n i : nat) :
  (i < n)%nat -> Z.to_nat (mirror (Z.of_nat n) (Z.of_nat i)) = i.
Proof.
  intros Hi. unfold mirror.
  destruct (Z.eqb_spec (Z.of_nat n) 1); [lia|].
  destruct (Z.eqb_spec (Z.of_nat i) (-1)); [lia|].
  destruct (Z.eqb_spec (Z.of_nat i) (Z.of_nat n)); lia.
Qed.

Lemma at_reflect101_sample (g : plane) (y x : Z) :
  -1 <= y <= Z.of_nat (rows g) -> -1 <= x <= Z.of_nat (cols g) ->
  at_reflect101 g y x = sample g y x.
Proof.
  intros Hy Hx. unfold at_reflect101, sample. now rewrite !reflect101_mirror.
Qed.

(** On a rectangular plane [cv2.Laplacian] returns the second differences. *)
Lemma Laplacian_second_differences (g : plane) :
  Forall (fun row => length row = cols g) g -> Laplacian g = second_differences g.
Proof.
  intros Hrect. unfold Laplacian, second_differences, zrange.
  rewrite (mapi_seq _ [] g), map_map. unfold rows.
  apply map_ext_in. intros y Hy. apply in_seq in Hy.
  assert (Hrow : length (nth y g []) = cols g).
  { rewrite Forall_forall in Hrect. apply Hrect, nth_In. lia. }
  rewrite (mapi_seq _ 0 (nth y g [])), Hrow, map_map.
  apply map_ext_in. intros x Hx. apply in_seq in Hx.
  rewrite !Z.add_0_l.
  rewrite !at_reflect101_sample by (unfold rows; lia).
  replace (nth x (nth y g []) 0) with (sample g (Z.of_nat y) (Z.of_nat x)); [reflexivity|].
  unfold sample, rows. now rewrite !mirror_inside by lia.
Qed.

Section Camera.

Context {cv : Cv2}.

Lemma cvtColor_BGR2GRAY_luminance (c : cube) :
  well_formed_bgr (Arr3 c) -> cvtColor_BGR2GRAY (Arr3 c) = Ok (luminance c).
Proof.
  intros (He & _ & Hpx). simpl. rewrite He. unfold luminance.
  apply mapM_map_Ok. intros row Hrow. apply mapM_map_Ok. intros p Hp.
  rewrite Forall_forall in Hpx. specialize (Hpx row Hrow).
  rewrite Forall_forall in Hpx. specialize (Hpx p Hp).
  destruct p as [|b [|g [|r [|a p]]]]; try discriminate. reflexivity.
Qed.

Lemma luminance_shape (c : cube) :
  rows (luminance c) = rows c /\ cols (luminance c) = cols c.
Proof.
  unfold luminance, rows, cols. split; [apply length_map|].
  destruct c as [|r c']; simpl; [reflexivity | apply length_map].
Qed.

(** The score that the selector computes for a well-formed colour frame. *)
Lemma frame_score (frame : ndarray) :
  well_formed_bgr frame ->
  exists gray, cvtColor_BGR2GRAY frame = Ok gray
    /\ is_empty (Laplacian gray) = false
    /\ ndarray_var (Laplacian gray) = laplacian_variance frame.
Proof.
  destruct frame as [g|c]; [intros []|]. intros Hwf.
  exists (luminance c). split; [now apply cvtColor_BGR2GRAY_luminance|].
  destruct Hwf as (He & Hrect & _).
  destruct (luminance_shape c) as [Hr Hc].
  split.
  - destruct (mapi2_shape (fun y x v =>
        at_reflect101 (luminance c) (Z.of_nat y - 1) (Z.of_nat x)
        + at_reflect101 (luminance c) (Z.of_nat y + 1) (Z.of_nat x)
        + at_reflect101 (luminance c) (Z.of_nat y) (Z.of_nat x - 1)
        + at_reflect101 (luminance c) (Z.of_nat y) (Z.of_nat x + 1)
        - 4 * v) (luminance c)) as [Hr' Hc'].
    rewrite <- He. apply same_shape_empty.
    + unfold Laplacian. rewrite <- Hr. exact Hr'.
    + unfold Laplacian. rewrite <- Hc. exact Hc'.
  - cbn [laplacian_variance]. rewrite Laplacian_second_differences; [reflexivity|].
    rewrite Hc. unfold luminance. apply Forall_map.
    eapply Forall_impl; [|exact Hrect]. intros row Hrow. now rewrite length_map.
Qed.

Lemma laplacian_variance_nonneg (frame : ndarray) :
  variance_nonneg cv -> well_formed_bgr frame -> (0 <= laplacian_variance frame)%Q.
Proof.
  intros Hvar Hwf. destruct (frame_score frame Hwf) as (gray & _ & He & <-).
  now apply Hvar.
Qed.

(** The loop keeps the incoming best frame when no frame of the list
    scores above the incoming maximum, and otherwise ends on the first
    frame of the list that attains the largest score. *)
Lemma select_loop_spec (rest : list ndarray) : forall max_variance best_frame,
  (forall f, In f rest -> well_formed_bgr f) ->
  (select_loop rest max_variance best_frame = Ok best_frame
   /\ forall f, In f rest -> (laplacian_variance f <= max_variance)%Q)
  \/ exists j r,
       select_loop rest max_variance best_frame = Ok r
       /\ nth_error rest j = Some r
       /\ (max_variance < laplacian_variance r)%Q
       /\ (forall f, In f rest -> (laplacian_variance f <= laplacian_variance r)%Q)
       /\ (forall j' f, (j' < j)%nat -> nth_error rest j' = Some f ->
             (laplacian_variance f < laplacian_variance r)%Q).
Proof.
  induction rest as [|frame rest IH]; intros mv b Hvalid.
  - left. split; [reflexivity | intros f []].
  - destruct (frame_score frame (Hvalid frame (or_introl eq_refl)))
      as (gray & Hgray & _ & Ev0).
    assert (Hvalid' : forall f, In f rest -> well_formed_bgr f)
      by (intros f Hf; apply Hvalid; now right).
    cbn [select_loop]. rewrite Hgray. cbn [bind]. rewrite Ev0.
    set (v0 := laplacian_variance frame) in *.
    destruct (Qlt_bool mv v0) eqn:Ecmp.
    + apply Qlt_bool_iff in Ecmp. right.
      destruct (IH v0 frame Hvalid')
        as [[E Hall]|(j & r & E & Hn & Hlt & Hall & Hfirst)].
      * exists 0%nat, frame. rewrite E. fold v0.
        split; [reflexivity|]. split; [reflexivity|]. split; [exact Ecmp|]. split.
        -- intros f [<-|Hf]; [apply Qle_refl | now apply Hall].
        -- intros j' f Hj. lia.
      * exists (S j), r. rewrite E.
        split; [reflexivity|]. split; [exact Hn|]. split.
        { eapply Qlt_trans; eassumption. }
        split.
        -- intros f [<-|Hf]; [now apply Qlt_le_weak | now apply Hall].
        -- intros [|j'] f Hj Hf; simpl in Hf.
           ++ injection Hf as <-. exact Hlt.
           ++ apply (Hfirst j' f); [lia | assumption].
    + assert (Hle : (v0 <= mv)%Q).
      { apply Qnot_lt_le. intros H. apply Qlt_bool_iff in H. congruence. }
      destruct (IH mv b Hvalid')
        as [[E Hall]|(j & r & E & Hn & Hlt & Hall & Hfirst)].
      * left. split; [exact E|].
        intros f [<-|Hf]; [exact Hle | now apply Hall].
      * right. exists (S j), r. rewrite E.
        split; [reflexivity|]. split; [exact Hn|]. split; [exact Hlt|]. split.
        -- intros f [<-|Hf]; [|now apply Hall].
           apply Qlt_le_weak. eapply Qle_lt_trans; eassumption.
        -- intros [|j'] f Hj Hf; simpl in Hf.
           ++ injection Hf as <-. eapply Qle_lt_trans; eassumption.
           ++ apply (Hfirst j' f); [lia | assumption].
Qed.

(** C6: on a non-empty sequence of well-formed colour frames,
    [_select_sharpest_frame] returns a frame of the sequence whose Laplacian
    variance is the largest of all, and every frame before it in input
    order has a strictly smaller one: the earliest frame with the largest
    Laplacian variance is returned.  The Laplacian variance of a frame is
    the variance, as NumPy returns it, of the second differences of the
    luminance plane. *)
Theorem select_sharpest_frame_first_max (frames : list ndarray) :
  variance_nonneg cv ->
  frames <> [] ->
  (forall f, In f frames -> well_formed_bgr f) ->
  exists best i,
    _select_sharpest_frame frames = Ok best
    /\ nth_error frames i = Some best
    /\ (forall f, In f frames -> (laplacian_variance f <= laplacian_variance best)%Q)
    /\ (forall j f, (j < i)%nat -> nth_error frames j = Some f ->
          (laplacian_variance f < laplacian_variance best)%Q).
Proof.
  intros Hvar Hne Hvalid. destruct frames as [|f0 rest]; [congruence|].
  unfold _select_sharpest_frame, index. cbn [nth_error bind].
  destruct (select_loop_spec (f0 :: rest) 0%Q f0 Hvalid)
    as [[E Hall]|(j & r & E & Hn & Hlt & Hall & Hfirst)].
  - exists f0, 0%nat. rewrite E.
    split; [reflexivity|]. split; [reflexivity|]. split.
    + intros f Hf. eapply Qle_trans; [now apply Hall|].
      apply laplacian_variance_nonneg; [exact Hvar|]. apply Hvalid. now left.
    + intros j0 f Hj. lia.
  - exists r, j. rewrite E. auto.
Qed.

Lemma read_burst_frames (n : nat) : forall cap frames,
  fst (read_burst n cap frames) = frames ++ delivered (firstn n cap).
Proof.
  induction n as [|n IH]; intros cap frames; simpl.
  - now rewrite app_nil_r.
  - destruct cap as [|[frame|] cap']; simpl.
    + rewrite IH. now destruct n.
    + rewrite IH, <- app_assoc. reflexivity.
    + apply IH.
Qed.

Lemma delivered_none (reads : list (option ndarray)) :
  Forall (fun r => r = None) reads -> delivered reads = [].
Proof. induction 1 as [|r l -> _ IH]; simpl; [reflexivity | exact IH]. Qed.

(** C10: when all five reads of the burst fail, so that no frame was
    collected, [capture_high_quality] returns [None] and not a frame; the
    selector is not entered, and on an empty sequence it would raise
    ([frames[0]] does not exist), so it yields a frame only on non-empty
    sequences. *)
Theorem capture_high_quality_empty_burst (self : CameraHandler) (cap : VideoCapture) :
  is_active self = true ->
  camera self = Some cap ->
  Forall (fun r => r = None) (firstn 5 cap) ->
  fst (read_burst 5 cap []) = []
  /\ fst (capture_high_quality self) = None
  /\ _select_sharpest_frame [] = Raise IndexError
  /\ (forall frames best, _select_sharpest_frame frames = Ok best -> frames <> []).
Proof.
  intros Hact Hcam Hreads.
  assert (Hb : fst (read_burst 5 cap []) = []).
  { rewrite read_burst_frames. simpl. now apply delivered_none. }
  split; [exact Hb|]. split; [|split].
  - unfold capture_high_quality. rewrite Hact, Hcam.
    destruct (read_burst 5 cap []) as [frames cap']. simpl in Hb. subst frames.
    reflexivity.
  - reflexivity.
  - intros frames best H ->. discriminate.
Qed.

End Camera.

Lemma sharp_burst_well_formed (f : ndarray) :
  In f [smooth; checker; gray40; checker] -> well_formed_bgr f.
Proof. intros [<-|[<-|[<-|[<-|[]]]]]; simpl; repeat split; repeat constructor. Qed.

Lemma select_sharpest_frame_first_max_witness :
  exists best i,
    _select_sharpest_frame (cv := Reference.cv) [smooth; checker; gray40; checker] = Ok best
    /\ nth_error [smooth; checker; gray40; checker] i = Some best
    /\ (forall f, In f [smooth; checker; gray40; checker] ->
          (laplacian_variance (cv := Reference.cv) f
           <= laplacian_variance (cv := Reference.cv) best)%Q)
    /\ (forall j f, (j < i)%nat ->
          nth_error [smooth; checker; gray40; checker] j = Some f ->
          (laplacian_variance (cv := Reference.cv) f
           < laplacian_variance (cv := Reference.cv) best)%Q).
Proof.
  apply (select_sharpest_frame_first_max (cv := Reference.cv)
           [smooth; checker; gray40; checker]).
  - exact reference_variance_nonneg.
  - discriminate.
  - exact sharp_burst_well_formed.
Defined.

(** The selector on that burst: the first of the two checkerboards. *)
Example select_sharpest_frame_run :
  _select_sharpest_frame (cv := Reference.cv) [smooth; checker; gray40; checker]
  = Ok checker.
Proof. reflexivity. Qed.

Lemma capture_high_quality_empty_burst_witness :
  fst (read_burst 5 [None; None; None; None; None; Some checker] []) = []
  /\ fst (capture_high_quality (cv := Reference.cv)
            {| camera := Some [None; None; None; None; None; Some checker];
               is_active := true; current_frame := Some gray40 |}) = None
  /\ _select_sharpest_frame (cv := Reference.cv) [] = Raise IndexError
  /\ (forall frames best,
        _select_sharpest_frame (cv := Reference.cv) frames = Ok best -> frames <> []).
Proof.
  apply (capture_high_quality_empty_burst (cv := Reference.cv)
           {| camera := Some [None; None; None; None; None; Some checker];
              is_active := true; current_frame := Some gray40 |}
           [None; None; None; None; None; Some checker]).
  - reflexivity.
  - reflexivity.
  - repeat constructor.
Defined.

(** * Further properties *)

(** ** Inputs the document pipeline accepts *)

Lemma mapM_Ok_Forall {A B : Type} (f : A -> result B) (l : list A) (bs : list B) :
  mapM f l = Ok bs -> Forall (fun a => exists b, f a = Ok b) l.
Proof.
  intros H. apply mapM_Forall2 in H.
  induction H as [|a b l bs Hab _ IH]; constructor; eauto.
Qed.

Section Inputs.

Context {cv : Cv2}.

Lemma gray_of_pixel_Ok_iff (p : list Z) :
  (exists v, gray_of_pixel p = Ok v) <-> (length p = 3%nat \/ length p = 4%nat).
Proof.
  destruct p as [|b [|g [|r [|a [|x p]]]]]; simpl; split;
    try (intros [v H]; discriminate); try (intros [H|H]; discriminate); eauto.
Qed.

Lemma cvtColor_BGR2GRAY_Ok_iff (src : ndarray) :
  (exists gray, cvtColor_BGR2GRAY src = Ok gray) <-> colour_image src.
Proof.
  destruct src as [g|c]; simpl.
  - split; [intros [gray H]; discriminate | intros []].
  - destruct (is_empty c).
    + split; [intros [gray H]; discriminate | intros [H _]; discriminate].
    + split.
      * intros [gray H]. split; [reflexivity|].
        apply mapM_Ok_Forall in H. eapply Forall_impl; [|exact H].
        intros row [grow Hrow]. apply mapM_Ok_Forall in Hrow.
        eapply Forall_impl; [|exact Hrow]. intros p. apply gray_of_pixel_Ok_iff.
      * intros [_ H]. apply mapM_defined. eapply Forall_impl; [|exact H].
        intros row Hrow. apply mapM_defined. eapply Forall_impl; [|exact Hrow].
        intros p. apply gray_of_pixel_Ok_iff.
Qed.

Lemma cvtColor_BGR2GRAY_raises (src : ndarray) :
  ~ colour_image src -> exists e, cvtColor_BGR2GRAY src = Raise e.
Proof.
  intros Hn. destruct (cvtColor_BGR2GRAY src) as [gray|e] eqn:E; [|eauto].
  exfalso. apply Hn. apply cvtColor_BGR2GRAY_Ok_iff. eauto.
Qed.

Lemma preprocess_image_Ok_iff (image : ndarray) :
  (exists pre, preprocess_image image = Ok pre) <-> colour_image image.
Proof.
  rewrite <- cvtColor_BGR2GRAY_Ok_iff. unfold preprocess_image. split.
  - intros [pre H]. destruct (cvtColor_BGR2GRAY image) as [gray|]; [eauto | discriminate].
  - intros [gray ->]. cbn [bind]. eauto.
Qed.

(** X1: preprocessing succeeds exactly on non-empty images whose pixels
    have three or four channels; on any other buffer (a grayscale array,
    an empty one, one- or two-channel pixels) [process_document] returns
    [None]. *)
Theorem process_document_needs_colour :
  (forall image, (exists pre, preprocess_image image = Ok pre) <-> colour_image image)
  /\ (forall image, ~ colour_image image -> process_document image = None)
  /\ (forall g, process_document (Arr2 g) = None).
Proof.
  split; [exact preprocess_image_Ok_iff|].
  assert (H : forall image, ~ colour_image image -> process_document image = None).
  { intros image Hn. unfold process_document, process_document_body.
    destruct (preprocess_image image) as [pre|e] eqn:E; [|reflexivity].
    exfalso. apply Hn. apply preprocess_image_Ok_iff. eauto. }
  split; [exact H|]. intros g. apply H. intros [].
Qed.

Lemma detect_document_contour_length (pre : plane) (c : contour) :
  detect_document_contour pre = Some c -> length c = 4%nat.
Proof.
  unfold detect_document_contour.
  destruct (findContours pre) as [|c0 cnts]; [discriminate|].
  intros H. apply search_quad_some in H.
  destruct H as (i & c' & _ & _ & Hlen & _). exact Hlen.
Qed.

(** X2: a contour returned by [detect_document_contour] has exactly four
    vertices, so on it [correct_perspective] raises neither in the reshape
    nor in the point ordering: its outcome is that of the resampling call,
    made with the size computed from the ordered corners. *)
Theorem detected_contour_reaches_warp (pre : plane) (image : ndarray) (c : contour) :
  detect_document_contour pre = Some c ->
  length c = 4%nat
  /\ exists rect,
       order_points c = Ok rect
       /\ correct_perspective image c
          = warpPerspective image
              (getPerspectiveTransform rect
                 (dst_points (fst (output_size rect)) (snd (output_size rect))))
              (output_size rect).
Proof.
  intros Hdet. pose proof (detect_document_contour_length pre c Hdet) as Hlen.
  split; [exact Hlen|].
  destruct (order_points_slots c (length4_nonempty c Hlen)) as (rect & Hr & _).
  exists rect. split; [exact Hr|].
  unfold correct_perspective, reshape_4_2. rewrite Hlen. cbn [Nat.eqb bind].
  rewrite Hr. cbn [bind]. destruct (output_size rect). reflexivity.
Qed.

(** X3: end to end on the rectified path.  For a well-formed colour
    image on which a quadrilateral is found whose computed size (w, h) is
    positive, and a resampler that honours its contract and returns a
    buffer, [process_document] returns a black-and-white three-channel
    buffer of width w and height h. *)
Theorem process_document_rectified_size
  (image : ndarray) (pre : plane) (c : contour) (rect : Rect) (corrected : ndarray) :
  warp_returns_dsize cv ->
  warp_keeps_type cv ->
  well_formed_bgr image ->
  preprocess_image image = Ok pre ->
  detect_document_contour pre = Some c ->
  order_points c = Ok rect ->
  correct_perspective image c = Ok corrected ->
  0 < fst (output_size rect) ->
  0 < snd (output_size rect) ->
  exists out,
    process_document image = Some out
    /\ width out = Z.to_nat (fst (output_size rect))
    /\ height out = Z.to_nat (snd (output_size rect))
    /\ binary_image out /\ gray_bgr out.
Proof.
  intros Hsize Htype Hwf Hpre Hdet Hrect Hcor Hw Hh.
  pose proof (detect_document_contour_length pre c Hdet) as Hlen.
  assert (Hcp : warpPerspective image
                (getPerspectiveTransform rect
                   (dst_points (fst (output_size rect)) (snd (output_size rect))))
                (fst (output_size rect), snd (output_size rect)) = Ok corrected).
  { rewrite <- Hcor. unfold correct_perspective, reshape_4_2.
    rewrite Hlen. cbn [Nat.eqb bind].
    rewrite Hrect. cbn [bind]. destruct (output_size rect). reflexivity. }
  pose proof (Htype _ _ _ _ _ Hwf Hw Hh Hcp) as Hwf'.
  destruct (Hsize _ _ _ _ _ Hw Hh Hcp) as [Hcw Hch].
  destruct (enhance_image_well_formed corrected Hwf') as (out & Hout & How & Hoh).
  exists out. split; [|split; [congruence | split; [congruence|]]].
  - unfold process_document.
    rewrite (process_document_found image pre c Hpre Hdet), Hcor. cbn [bind].
    now rewrite Hout.
  - destruct (enhance_image_binary corrected out Hout) as (Hb & _ & Hg).
    split; [exact Hb|]. apply Hg. destruct corrected; [destruct Hwf' | reflexivity].
Qed.

(** X4: [_enhance_for_document] never raises.  On a frame that the
    luminance conversion rejects it returns the frame itself; on a
    well-formed colour frame, with a blur that keeps the shape, it returns
    a black-and-white image of three equal channels and of the same width
    and height. *)
Theorem enhance_for_document_spec (frame : ndarray) :
  blur_keeps_shape cv ->
  (~ colour_image frame -> _enhance_for_document frame = frame)
  /\ (well_formed_bgr frame ->
       binary_image (_enhance_for_document frame)
       /\ gray_bgr (_enhance_for_document frame)
       /\ width (_enhance_for_document frame) = width frame
       /\ height (_enhance_for_document frame) = height frame).
Proof.
  intros Hblur. unfold _enhance_for_document. split.
  - intros Hn. destruct (cvtColor_BGR2GRAY_raises frame Hn) as [e ->]. reflexivity.
  - intros Hwf. destruct frame as [g|c]; [destruct Hwf|].
    destruct (cvtColor_BGR2GRAY_shape c Hwf) as (gray & Hg & Hgr & Hgc).
    rewrite Hg. cbn [bind].
    destruct (Hblur gray (5%nat, 5%nat) 0%Q) as [Hbr Hbc].
    set (blurred := GaussianBlur gray (5%nat, 5%nat) 0) in *.
    assert (He : is_empty blurred = false).
    { rewrite (same_shape_empty gray blurred Hbr Hbc).
      rewrite (same_shape_empty c gray Hgr Hgc). apply Hwf. }
    destruct (adaptiveThreshold_shape blurred 255 11 2 He) as (t & Ht & Htr & Htc).
    rewrite Ht. cbn [bind].
    split; [|split].
    + apply cvtColor_GRAY2BGR_binary. eapply adaptiveThreshold_binary. exact Ht.
    + apply cvtColor_GRAY2BGR_gray.
    + destruct (cvtColor_GRAY2BGR_shape t) as [Hr Hc]. simpl. split; congruence.
Qed.

End Inputs.

(** *** The reference instance honours the contracts *)

Lemma clamp_lt (n : nat) (i : Z) : n <> 0%nat -> (clamp n i < n)%nat.
Proof. intros Hn. unfold clamp. lia. Qed.

Lemma reference_blur_keeps_shape : blur_keeps_shape Reference.cv.
Proof. intros src ksize sigma. split; reflexivity. Qed.

Lemma shifted_well_formed (c : cube) (tx ty : Z) (w h : nat) :
  well_formed_bgr (Arr3 c) -> w <> 0%nat -> h <> 0%nat ->
  well_formed_bgr (Arr3 (Reference.shifted [] c tx ty w h)).
Proof.
  intros (He & Hrect & Hpx) Hw Hh.
  apply is_empty_false_iff in He. destruct He as [Hrows Hcols].
  assert (Hcols' : cols (Reference.shifted [] c tx ty w h) = w).
  { unfold Reference.shifted, cols. destruct h as [|h']; [congruence|].
    simpl. now rewrite length_map, length_seq. }
  simpl. split; [|split].
  - apply is_empty_false_iff. rewrite Hcols'. split; [|exact Hw].
    unfold Reference.shifted, rows. now rewrite length_map, length_seq.
  - rewrite Hcols'. unfold Reference.shifted.
    apply Forall_map, Forall_forall. intros y _. now rewrite length_map, length_seq.
  - unfold Reference.shifted.
    apply Forall_map, Forall_forall. intros y _.
    apply Forall_map, Forall_forall. intros x _.
    set (ky := clamp (rows c) (Z.of_nat y - ty)).
    set (kx := clamp (cols c) (Z.of_nat x - tx)).
    assert (Hrow : In (nth ky c []) c).
    { apply nth_In. apply (clamp_lt (rows c)). exact Hrows. }
    assert (Hlen : length (nth ky c []) = cols c).
    { rewrite Forall_forall in Hrect. now apply Hrect. }
    assert (Hpix : In (nth kx (nth ky c []) []) (nth ky c [])).
    { apply nth_In. rewrite Hlen. apply (clamp_lt (cols c)). exact Hcols. }
    rewrite Forall_forall in Hpx. specialize (Hpx _ Hrow).
    rewrite Forall_forall in Hpx. now apply Hpx.
Qed.

Lemma reference_warp_keeps_type : warp_keeps_type Reference.cv.
Proof.
  intros img M w h out Hwf Hw Hh. simpl. unfold Reference.warp.
  destruct (Z.leb_spec w 0); [lia|]. destruct (Z.leb_spec h 0); [lia|]. simpl.
  destruct img as [g|c]; [destruct Hwf|].
  destruct (is_empty c); [discriminate|]. intros E. injection E as <-.
  apply shifted_well_formed; [exact Hwf | lia | lia].
Qed.

Lemma detected_contour_reaches_warp_witness :
  length page_outline = 4%nat
  /\ exists rect,
       order_points page_outline = Ok rect
       /\ correct_perspective (cv := Reference.cv) page_on_table page_outline
          = warpPerspective (Cv2 := Reference.cv) page_on_table
              (getPerspectiveTransform (Cv2 := Reference.cv) rect
                 (dst_points (fst (output_size rect)) (snd (output_size rect))))
              (output_size rect).
Proof.
  apply (detected_contour_reaches_warp (cv := Reference.cv)
           page_edges page_on_table page_outline).
  reflexivity.
Defined.

Lemma page_on_table_well_formed : well_formed_bgr page_on_table.
Proof. simpl. repeat split; repeat constructor. Qed.

Lemma process_document_rectified_size_witness :
  exists out,
    process_document (cv := Reference.cv) page_on_table = Some out
    /\ width out = 3%nat /\ height out = 3%nat
    /\ binary_image out /\ gray_bgr out.
Proof.
  apply (process_document_rectified_size (cv := Reference.cv)
           page_on_table page_edges page_outline
           {| tl := (1, 1); tr := (4, 1); br := (4, 4); bl := (1, 4) |}
           page_rectified).
  - exact reference_warp_returns_dsize.
  - exact reference_warp_keeps_type.
  - exact page_on_table_well_formed.
  - reflexivity.
  - reflexivity.
  - reflexivity.
  - reflexivity.
  - reflexivity.
  - reflexivity.
Defined.

Lemma smooth_well_formed : well_formed_bgr smooth.
Proof. simpl. repeat split; repeat constructor. Qed.

Lemma enhance_for_document_spec_witness :
  (~ colour_image smooth -> _enhance_for_document (cv := Reference.cv) smooth = smooth)
  /\ (well_formed_bgr smooth ->
       binary_image (_enhance_for_document (cv := Reference.cv) smooth)
       /\ gray_bgr (_enhance_for_document (cv := Reference.cv) smooth)
       /\ width (_enhance_for_document (cv := Reference.cv) smooth) = width smooth
       /\ height (_enhance_for_document (cv := Reference.cv) smooth) = height smooth).
Proof.
  apply (enhance_for_document_spec (cv := Reference.cv) smooth).
  exact reference_blur_keeps_shape.
Defined.

(** A grayscale frame comes back from [_enhance_for_document] as it is. *)
Example enhance_for_document_gray :
  _enhance_for_document (cv := Reference.cv) (Arr2 page_edges) = Arr2 page_edges.
Proof. reflexivity. Qed.

(** ** Burst capture, continued *)

Lemma read_burst_spec (n : nat) : forall cap frames,
  read_burst n cap frames = (frames ++ delivered (firstn n cap), skipn n cap).
Proof.
  induction n as [|n IH]; intros cap frames; simpl.
  - now rewrite app_nil_r.
  - destruct cap as [|[frame|] cap']; simpl.
    + rewrite IH. destruct n; reflexivity.
    + rewrite IH, <- app_assoc. reflexivity.
    + apply IH.
Qed.

Section Burst.

Context {cv : Cv2}.

(** The selector on a non-empty list of well-formed colour frames. *)
Lemma select_sharpest_frame_spec (frames : list ndarray) :
  variance_nonneg cv ->
  frames <> [] ->
  (forall f, In f frames -> well_formed_bgr f) ->
  exists best i,
    _select_sharpest_frame frames = Ok best
    /\ nth_error frames i = Some best
    /\ (forall f, In f frames -> (laplacian_variance f <= laplacian_variance best)%Q)
    /\ (forall j f, (j < i)%nat -> nth_error frames j = Some f ->
          (laplacian_variance f < laplacian_variance best)%Q).
Proof.
  intros Hvar Hne Hvalid. destruct frames as [|f0 rest]; [congruence|].
  unfold _select_sharpest_frame, index. cbn [nth_error bind].
  destruct (select_loop_spec (f0 :: rest) 0%Q f0 Hvalid)
    as [[E Hall]|(j & r & E & Hn & Hlt & Hall & Hfirst)].
  - exists f0, 0%nat. rewrite E.
    split; [reflexivity|]. split; [reflexivity|]. split.
    + intros f Hf. eapply Qle_trans; [now apply Hall|].
      apply laplacian_variance_nonneg; [exact Hvar|]. apply Hvalid. now left.
    + intros j0 f Hj. lia.
  - exists r, j. rewrite E. auto.
Qed.

(** The loop converts every frame, so one frame that the luminance
    conversion rejects makes it raise, wherever that frame stands. *)
Lemma select_loop_raises (frames : list ndarray) (bad : ndarray) :
  In bad frames -> ~ colour_image bad ->
  forall max_variance best_frame,
    exists e, select_loop frames max_variance best_frame = Raise e.
Proof.
  intros Hin Hbad. induction frames as [|frame rest IH]; [destruct Hin|].
  intros mv b. cbn [select_loop].
  destruct (cvtColor_BGR2GRAY frame) as [gray|e] eqn:Eg; cbn [bind]; [|eauto].
  destruct Hin as [<-|Hin].
  - exfalso. apply Hbad. apply cvtColor_BGR2GRAY_Ok_iff. eauto.
  - destruct (Qlt_bool mv (ndarray_var (Laplacian gray))); apply (IH Hin).
Qed.

(** X5: an active handler with an opened camera consumes exactly five
    reads.  When at least one of them delivered a frame and the delivered
    frames are well-formed colour images, [capture_high_quality] returns
    [_enhance_for_document] of the earliest delivered frame whose Laplacian
    variance, as NumPy returns it, is the largest. *)
Theorem capture_high_quality_sharpest (self : CameraHandler) (cap : VideoCapture) :
  variance_nonneg cv ->
  is_active self = true ->
  camera self = Some cap ->
  delivered (firstn 5 cap) <> [] ->
  (forall f, In f (delivered (firstn 5 cap)) -> well_formed_bgr f) ->
  exists best i,
    capture_high_quality self
    = (Some (_enhance_for_document best),
       {| camera := Some (skipn 5 cap); is_active := true;
          current_frame := current_frame self |})
    /\ nth_error (delivered (firstn 5 cap)) i = Some best
    /\ (forall f, In f (delivered (firstn 5 cap)) ->
          (laplacian_variance f <= laplacian_variance best)%Q)
    /\ (forall j f, (j < i)%nat -> nth_error (delivered (firstn 5 cap)) j = Some f ->
          (laplacian_variance f < laplacian_variance best)%Q).
Proof.
  intros Hvar Hact Hcam Hne Hcol.
  destruct (select_sharpest_frame_spec (delivered (firstn 5 cap)) Hvar Hne Hcol)
    as (best & i & Hsel & Hn & Hall & Hfirst).
  exists best, i. split; [|auto].
  unfold capture_high_quality. rewrite Hact, Hcam, read_burst_spec.
  cbn [app]. destruct (delivered (firstn 5 cap)) as [|f0 fs] eqn:Ed; [congruence|].
  rewrite Hsel. cbn [bind]. reflexivity.
Qed.

(** X6: when one of the delivered frames is not a colour image, the
    selector raises and [capture_high_quality] falls back to [get_frame]:
    it returns the stored preview frame, [None] when there is none; the
    five reads are consumed all the same. *)
Theorem capture_high_quality_falls_back
  (self : CameraHandler) (cap : VideoCapture) (bad : ndarray) :
  is_active self = true ->
  camera self = Some cap ->
  In bad (delivered (firstn 5 cap)) ->
  ~ colour_image bad ->
  capture_high_quality self
  = (current_frame self,
     {| camera := Some (skipn 5 cap); is_active := true;
        current_frame := current_frame self |}).
Proof.
  intros Hact Hcam Hin Hbad.
  unfold capture_high_quality. rewrite Hact, Hcam, read_burst_spec. cbn [app].
  destruct (delivered (firstn 5 cap)) as [|f0 fs] eqn:Ed; [destruct Hin|].
  unfold _select_sharpest_frame, index. cbn [nth_error bind].
  destruct (select_loop_raises (f0 :: fs) bad Hin Hbad 0%Q f0) as [e ->].
  reflexivity.
Qed.

(** X7: [start_camera] succeeds exactly when the device opens and its
    first read delivers a frame; that test frame is dropped and the handler
    becomes active.  After a failure the handler holds a capture that
    delivers nothing and keeps its former activity flag, and
    [capture_high_quality] returns [None]. *)
Theorem start_camera_spec (devices : Devices) (self : CameraHandler) (camera_index : nat) :
  (fst (start_camera devices self camera_index) = true <->
     exists frame rest, devices camera_index = Some (Some frame :: rest))
  /\ (forall frame rest, devices camera_index = Some (Some frame :: rest) ->
        snd (start_camera devices self camera_index)
        = {| camera := Some rest; is_active := true;
             current_frame := current_frame self |})
  /\ (fst (start_camera devices self camera_index) = false ->
        camera (snd (start_camera devices self camera_index)) = Some closed_capture
        /\ is_active (snd (start_camera devices self camera_index)) = is_active self
        /\ fst (capture_high_quality (snd (start_camera devices self camera_index)))
           = None).
Proof.
  unfold start_camera.
  destruct (devices camera_index) as [[|[frame|] rest]|] eqn:Ed; simpl.
  - split; [|split].
    + split; [discriminate | intros (f & r & H); discriminate].
    + intros f r H. discriminate.
    + intros _. repeat split. unfold capture_high_quality. simpl.
      destruct (is_active self); reflexivity.
  - split; [|split].
    + split; [eauto | reflexivity].
    + intros f r H. injection H as <- <-. reflexivity.
    + discriminate.
  - split; [|split].
    + split; [discriminate | intros (f & r & H); discriminate].
    + intros f r H. discriminate.
    + intros _. repeat split. unfold capture_high_quality. simpl.
      destruct (is_active self); reflexivity.
  - split; [|split].
    + split; [discriminate | intros (f & r & H); discriminate].
    + intros f r H. discriminate.
    + intros _. repeat split. unfold capture_high_quality. simpl.
      destruct (is_active self); reflexivity.
Qed.

(** X8: after [switch_camera] the handler is active exactly when the
    call returned [True].  A failed switch therefore leaves no usable
    camera: [capture_high_quality] returns [None], and if a camera was
    active before, its preview frame is gone as well. *)
Theorem switch_camera_spec (devices : Devices) (self : CameraHandler) (camera_index : nat) :
  is_active (snd (switch_camera devices self camera_index))
  = fst (switch_camera devices self camera_index)
  /\ (fst (switch_camera devices self camera_index) = false ->
        fst (capture_high_quality (snd (switch_camera devices self camera_index))) = None
        /\ (is_active self = true ->
              get_frame (snd (switch_camera devices self camera_index)) = None)).
Proof.
  unfold switch_camera, start_camera, stop_camera.
  destruct (is_active self) eqn:Ha;
    destruct (devices camera_index) as [[|[frame|] rest]|]; simpl;
    rewrite ?Ha; repeat split; try reflexivity; try discriminate; try congruence.
Qed.

End Burst.

Lemma probe_cameras_filter (devices : Devices) (indices : list nat) :
  forall available_cameras self,
    probe_cameras devices indices available_cameras
    = available_cameras
      ++ filter (fun i => fst (start_camera devices self i)) indices.
Proof.
  induction indices as [|i rest IH]; intros acc self; simpl.
  - now rewrite app_nil_r.
  - unfold start_camera at 1.
    destruct (devices i) as [[|[frame|] cap]|]; simpl.
    + apply IH.
    + rewrite (IH _ self), <- app_assoc. reflexivity.
    + apply IH.
    + apply IH.
Qed.

(** X9: [list_available_cameras] reports, in increasing order, exactly
    the indices below 5 on which [start_camera] would succeed. *)
Theorem list_available_cameras_spec (devices : Devices) (self : CameraHandler) :
  (forall i, In i (list_available_cameras devices) <->
     (i < 5)%nat /\ fst (start_camera devices self i) = true)
  /\ StronglySorted lt (list_available_cameras devices).
Proof.
  unfold list_available_cameras.
  rewrite (probe_cameras_filter devices (seq 0 5) [] self). cbn [app].
  split.
  - intros i. rewrite filter_In, in_seq. split; intros [H1 H2]; split; try assumption; lia.
  - assert (Hs : forall n start, StronglySorted lt (seq start n)).
    { induction n as [|n IHn]; intros start; simpl; constructor; [apply IHn|].
      apply Forall_forall. intros x Hx. apply in_seq in Hx. lia. }
    generalize (Hs 5%nat 0%nat). generalize (seq 0 5).
    intros l Hl. induction Hl as [|a l Hl IHl Ha]; simpl; [constructor|].
    destruct (fst (start_camera devices self a)); [|exact IHl].
    constructor; [exact IHl|].
    apply Forall_forall. intros x Hx. apply filter_In in Hx.
    rewrite Forall_forall in Ha. apply Ha, Hx.
Qed.

Lemma capture_high_quality_sharpest_witness :
  exists best i,
    capture_high_quality (cv := Reference.cv) (active_handler good_burst)
    = (Some (_enhance_for_document (cv := Reference.cv) best),
       {| camera := Some (skipn 5 good_burst); is_active := true;
          current_frame := current_frame (active_handler good_burst) |})
    /\ nth_error (delivered (firstn 5 good_burst)) i = Some best
    /\ (forall f, In f (delivered (firstn 5 good_burst)) ->
          (laplacian_variance (cv := Reference.cv) f
           <= laplacian_variance (cv := Reference.cv) best)%Q)
    /\ (forall j f, (j < i)%nat ->
          nth_error (delivered (firstn 5 good_burst)) j = Some f ->
          (laplacian_variance (cv := Reference.cv) f
           < laplacian_variance (cv := Reference.cv) best)%Q).
Proof.
  apply (capture_high_quality_sharpest (cv := Reference.cv)
           (active_handler good_burst) good_burst).
  - exact reference_variance_nonneg.
  - reflexivity.
  - reflexivity.
  - discriminate.
  - intros f [<-|[<-|[<-|[]]]]; simpl; repeat split; repeat constructor.
Defined.

(** On that burst the first checkerboard is chosen and one read is left. *)
Example capture_high_quality_run :
  capture_high_quality (cv := Reference.cv) (active_handler good_burst)
  = (Some (_enhance_for_document (cv := Reference.cv) checker),
     active_handler [Some gray40]).
Proof. reflexivity. Qed.

Lemma capture_high_quality_falls_back_witness :
  capture_high_quality (cv := Reference.cv) (active_handler mixed_burst)
  = (current_frame (active_handler mixed_burst),
     {| camera := Some (skipn 5 mixed_burst); is_active := true;
        current_frame := current_frame (active_handler mixed_burst) |}).
Proof.
  apply (capture_high_quality_falls_back (cv := Reference.cv)
           (active_handler mixed_burst) mixed_burst gray_frame).
  - reflexivity.
  - reflexivity.
  - simpl. auto.
  - intros [].
Defined.

(** Device 0 is reported; device 1 opens but delivers no frame. *)
Example list_available_cameras_run : list_available_cameras two_devices = [0%nat].
Proof. reflexivity. Qed.

Example switch_camera_run :
  switch_camera two_devices (active_handler good_burst) 1
  = (false, {| camera := Some closed_capture; is_active := false;
               current_frame := None |}).
Proof. reflexivity. Qed.

(** ** Manual adjustments *)

Lemma swap_red_blue_rev (p : list Z) : length p = 3%nat -> swap_red_blue p = Ok (rev p).
Proof. destruct p as [|b [|g [|r [|a p]]]]; try discriminate. reflexivity. Qed.

Lemma map_map_shape {A B : Type} (f : A -> B) (a : list (list A)) :
  is_empty (map (map f) a) = is_empty a.
Proof. destruct a as [|[|x r] a']; reflexivity. Qed.

Lemma cvtColor_BGR2RGB_three (c : cube) :
  is_empty c = false ->
  Forall (Forall (fun p => length p = 3%nat)) c ->
  cvtColor_BGR2RGB (Arr3 c) = Ok (map (map (@rev Z)) c).
Proof.
  intros He H3. simpl. rewrite He. apply mapM_map_Ok. intros row Hrow.
  apply mapM_map_Ok. intros p Hp. apply swap_red_blue_rev.
  rewrite Forall_forall in H3. specialize (H3 row Hrow).
  rewrite Forall_forall in H3. now apply H3.
Qed.

Lemma rev_rev_cube (c : cube) : map (map (@rev Z)) (map (map (@rev Z)) c) = c.
Proof.
  rewrite map_map. rewrite <- (map_id c) at 2. apply map_ext. intros row.
  rewrite map_map. rewrite <- (map_id row) at 2. apply map_ext. intros p.
  apply rev_involutive.
Qed.

Section UnitFactors.

Context {pil : Pil}.

(** X10: with brightness, contrast and sharpness all equal to 1 no
    enhancer is applied and the two channel reversals cancel: a
    three-channel image is returned unchanged, and a non-empty grayscale
    image is returned as an image of three equal channels. *)
Theorem apply_adjustments_unit_factors (brightness contrast sharpness : Q) :
  (brightness == 1)%Q -> (contrast == 1)%Q -> (sharpness == 1)%Q ->
  (forall c, Forall (Forall (fun p => length p = 3%nat)) c ->
     apply_adjustments (Arr3 c) brightness contrast sharpness = Arr3 c)
  /\ (forall g, is_empty g = false ->
        apply_adjustments (Arr2 g) brightness contrast sharpness
        = Arr3 (cvtColor_GRAY2BGR g)).
Proof.
  intros Hb Hc Hs.
  apply Qeq_bool_iff in Hb. apply Qeq_bool_iff in Hc. apply Qeq_bool_iff in Hs.
  split.
  - intros c H3. unfold apply_adjustments, apply_adjustments_body.
    destruct (is_empty c) eqn:He.
    + simpl. rewrite He. reflexivity.
    + rewrite (cvtColor_BGR2RGB_three c He H3). cbn [bind].
      rewrite Hb, Hc, Hs. cbn [negb bind].
      unfold cvtColor_RGB2BGR. rewrite cvtColor_BGR2RGB_three.
      * cbn [bind]. now rewrite rev_rev_cube.
      * now rewrite map_map_shape.
      * apply Forall_map. eapply Forall_impl; [|exact H3]. intros row Hrow.
        apply Forall_map. eapply Forall_impl; [|exact Hrow]. intros p Hp.
        now rewrite length_rev.
  - intros g He. unfold apply_adjustments, apply_adjustments_body.
    simpl cvtColor_GRAY2RGB. rewrite He. cbn [bind].
    rewrite Hb, Hc, Hs. cbn [negb bind].
    unfold cvtColor_RGB2BGR. rewrite cvtColor_BGR2RGB_three.
    + cbn [bind]. f_equal. unfold cvtColor_GRAY2BGR.
      rewrite map_map. apply map_ext. intros row.
      rewrite map_map. apply map_ext. reflexivity.
    + unfold cvtColor_GRAY2BGR. now rewrite map_map_shape.
    + unfold cvtColor_GRAY2BGR. apply Forall_map, Forall_forall. intros row _.
      apply Forall_map, Forall_forall. reflexivity.
Qed.

End UnitFactors.

Lemma apply_adjustments_unit_factors_witness :
  (forall c, Forall (Forall (fun p => length p = 3%nat)) c ->
     apply_adjustments (pil := plain_pil) (Arr3 c) (2 # 2) 1 (10 # 10) = Arr3 c)
  /\ (forall g, is_empty g = false ->
        apply_adjustments (pil := plain_pil) (Arr2 g) (2 # 2) 1 (10 # 10)
        = Arr3 (cvtColor_GRAY2BGR g)).
Proof.
  apply (apply_adjustments_unit_factors (pil := plain_pil) (2 # 2) 1 (10 # 10));
    reflexivity.
Defined.

(** ** The page list *)

Module PagesFacts.
Import Pages.

Lemma swap_items_cons {A : Type} (c : A) (l : list A) (i j : nat) :
  swap_items (c :: l) (S i) (S j) = c :: swap_items l i j.
Proof.
  unfold swap_items. simpl.
  destruct (nth_error l j), (nth_error l i); reflexivity.
Qed.

Lemma swap_up_adjacent {A : Type} (l1 : list A) (a b : A) (l2 : list A) :
  swap_items (l1 ++ a :: b :: l2) (S (length l1)) (length l1) = l1 ++ b :: a :: l2.
Proof.
  induction l1 as [|c l1 IH]; simpl; [reflexivity|].
  now rewrite swap_items_cons, IH.
Qed.

Lemma swap_down_adjacent {A : Type} (l1 : list A) (a b : A) (l2 : list A) :
  swap_items (l1 ++ a :: b :: l2) (length l1) (S (length l1)) = l1 ++ b :: a :: l2.
Proof.
  induction l1 as [|c l1 IH]; simpl; [reflexivity|].
  now rewrite swap_items_cons, IH.
Qed.

Lemma split_adjacent {A : Type} (j : nat) : forall l : list A,
  (S j < length l)%nat ->
  exists l1 a b l2, l = l1 ++ a :: b :: l2 /\ length l1 = j.
Proof.
  induction j as [|j IH]; intros l Hl.
  - destruct l as [|a [|b l2]]; simpl in Hl; try lia.
    exists [], a, b, l2. split; reflexivity.
  - destruct l as [|c l]; simpl in Hl; [lia|].
    destruct (IH l) as (l1 & a & b & l2 & -> & Hlen); [lia|].
    exists (c :: l1), a, b, l2. split; [reflexivity | simpl; lia].
Qed.

Lemma length_adjacent {A : Type} (l1 : list A) (a b : A) (l2 : list A) :
  length (l1 ++ a :: b :: l2) = (length l1 + 2 + length l2)%nat.
Proof. rewrite length_app. simpl. lia. Qed.

(** [move_page_up] and [move_page_down] on a selected page that has a
    neighbour on the side concerned. *)
Lemma move_page_up_split (l1 : list page) (a b : page) (l2 : list page)
  (sel : option nat) (cur proc : option ndarray) (cnt : nat) :
  move_page_up (mkApp (l1 ++ a :: b :: l2) sel cur proc cnt (Some (S (length l1))))
  = mkApp (l1 ++ b :: a :: l2) sel cur proc cnt (Some (length l1)).
Proof.
  unfold move_page_up. cbn [listbox_selection scanned_pages].
  assert (H : ((0 <? S (length l1))%nat
               && (S (length l1) <? length (l1 ++ a :: b :: l2))%nat) = true).
  { rewrite length_adjacent. apply andb_true_intro.
    split; apply Nat.ltb_lt; lia. }
  rewrite H. unfold selection_set, update_pages_list, with_pages. simpl.
  rewrite Nat.sub_0_r, swap_up_adjacent. reflexivity.
Qed.

Lemma move_page_down_split (l1 : list page) (a b : page) (l2 : list page)
  (sel : option nat) (cur proc : option ndarray) (cnt : nat) :
  move_page_down (mkApp (l1 ++ a :: b :: l2) sel cur proc cnt (Some (length l1)))
  = mkApp (l1 ++ b :: a :: l2) sel cur proc cnt (Some (S (length l1))).
Proof.
  unfold move_page_down. cbn [listbox_selection scanned_pages].
  assert (H : (Z.of_nat (length l1)
               <? Z.of_nat (length (l1 ++ a :: b :: l2)) - 1) = true).
  { rewrite length_adjacent. apply Z.ltb_lt. lia. }
  rewrite H. unfold selection_set, update_pages_list, with_pages. simpl.
  rewrite Nat.add_1_r, swap_down_adjacent. reflexivity.
Qed.

(** X11: moving the selected page up and then down again, or down and
    then up again, restores the application state: the same pages in the
    same order, with the same page selected. *)
Theorem move_page_round_trip (app : App) (i : nat) :
  listbox_selection app = Some i ->
  ((0 < i < length (scanned_pages app))%nat ->
     move_page_down (move_page_up app) = app)
  /\ ((i + 1 < length (scanned_pages app))%nat ->
        move_page_up (move_page_down app) = app).
Proof.
  destruct app as [pages sel cur proc cnt lsel]. simpl. intros ->. split.
  - intros [Hpos Hlt]. destruct i as [|j]; [lia|].
    destruct (split_adjacent j pages) as (l1 & a & b & l2 & -> & <-); [lia|].
    now rewrite move_page_up_split, move_page_down_split.
  - intros Hlt.
    destruct (split_adjacent i pages) as (l1 & a & b & l2 & -> & <-); [lia|].
    now rewrite move_page_down_split, move_page_up_split.
Qed.

(** X12: [move_page_up] exchanges the selected page with the one before
    it and moves the selection along, leaving every other page and every
    other field as it was; at the first position, or with a selection past
    the end, it does nothing.  [move_page_down] does the same with the page
    after it, and nothing at the last position.  In particular
    [selected_page_index], the page under edit, is never adjusted. *)
Theorem move_page_exchanges_neighbours (app : App) (i : nat) :
  listbox_selection app = Some i ->
  ((0 < i < length (scanned_pages app))%nat ->
     exists l1 a b l2,
       scanned_pages app = l1 ++ a :: b :: l2 /\ S (length l1) = i
       /\ move_page_up app
          = mkApp (l1 ++ b :: a :: l2) (selected_page_index app) (current_image app)
              (processed_image app) (page_counter app) (Some (i - 1)%nat))
  /\ ((i = 0 \/ length (scanned_pages app) <= i)%nat -> move_page_up app = app)
  /\ ((i + 1 < length (scanned_pages app))%nat ->
        exists l1 a b l2,
          scanned_pages app = l1 ++ a :: b :: l2 /\ length l1 = i
          /\ move_page_down app
             = mkApp (l1 ++ b :: a :: l2) (selected_page_index app) (current_image app)
                 (processed_image app) (page_counter app) (Some (i + 1)%nat))
  /\ ((length (scanned_pages app) <= i + 1)%nat -> move_page_down app = app).
Proof.
  destruct app as [pages sel cur proc cnt lsel]. simpl. intros ->.
  split; [|split; [|split]].
  - intros [Hpos Hlt]. destruct i as [|j]; [lia|].
    destruct (split_adjacent j pages) as (l1 & a & b & l2 & -> & <-); [lia|].
    exists l1, a, b, l2. split; [reflexivity|]. split; [reflexivity|].
    rewrite move_page_up_split. simpl. now rewrite Nat.sub_0_r.
  - intros H. unfold move_page_up. simpl.
    destruct (Nat.ltb_spec 0 i), (Nat.ltb_spec i (length pages)); simpl;
      try reflexivity. lia.
  - intros Hlt.
    destruct (split_adjacent i pages) as (l1 & a & b & l2 & -> & <-); [lia|].
    exists l1, a, b, l2. split; [reflexivity|]. split; [reflexivity|].
    rewrite move_page_down_split. now rewrite Nat.add_1_r.
  - intros H. unfold move_page_down. simpl.
    destruct (Z.ltb_spec (Z.of_nat i) (Z.of_nat (length pages) - 1)); [lia | reflexivity].
Qed.

Lemma nth_error_pop {A : Type} (l : list A) : forall i j,
  nth_error (pop l i) j = if (j <? i)%nat then nth_error l j else nth_error l (S j).
Proof.
  induction l as [|a l IH]; intros i j; simpl.
  - destruct (j <? i)%nat; destruct j; reflexivity.
  - destruct i as [|i]; simpl; [reflexivity|].
    destruct j as [|j]; simpl; [reflexivity|]. rewrite IH.
    destruct (Nat.ltb_spec j i), (Nat.ltb_spec (S j) (S i)); try lia; reflexivity.
Qed.

Lemma nth_error_set_item {A : Type} (l : list A) (x : A) : forall i j,
  (i < length l)%nat ->
  nth_error (set_item l i x) j = if (j =? i)%nat then Some x else nth_error l j.
Proof.
  induction l as [|a l IH]; intros i j Hi; simpl in Hi; [lia|].
  destruct i as [|i]; destruct j as [|j]; simpl; try reflexivity.
  apply IH. lia.
Qed.

Lemma length_pop {A : Type} (l : list A) : forall i,
  (i < length l)%nat -> length (pop l i) = (length l - 1)%nat.
Proof.
  induction l as [|a l IH]; intros i Hi; simpl in *; [lia|].
  destruct i as [|i]; simpl; [lia|]. rewrite IH by lia. lia.
Qed.

(** X13: [delete_page] removes the page selected in the list box and
    leaves [selected_page_index] alone.  So when a page listed before the
    page under edit is deleted and the pending changes are then applied,
    [update_selected_page] leaves the page that was under edit untouched
    (it now stands one position earlier) and overwrites the image of the
    page that followed it; when no page followed, the changes are not
    applied at all. *)
Theorem delete_then_update_hits_next_page
  (app : App) (i k : nat) (processed : ndarray) (edited : page) (now : String.string) :
  listbox_selection app = Some i ->
  selected_page_index app = Some k ->
  (i < k)%nat ->
  processed_image app = Some processed ->
  nth_error (scanned_pages app) k = Some edited ->
  selected_page_index (delete_page true app) = Some k
  /\ scanned_pages (delete_page true app) = pop (scanned_pages app) i
  /\ nth_error (scanned_pages (update_selected_page true now (delete_page true app)))
       (k - 1) = Some edited
  /\ (forall next, nth_error (scanned_pages app) (S k) = Some next ->
        nth_error (scanned_pages (update_selected_page true now (delete_page true app))) k
        = Some {| name := name next; image := processed; timestamp := now |})
  /\ (nth_error (scanned_pages app) (S k) = None ->
        update_selected_page true now (delete_page true app) = delete_page true app).
Proof.
  destruct app as [pages sel cur proc cnt lsel].
  cbn [listbox_selection selected_page_index processed_image scanned_pages].
  intros -> -> Hik -> Hk.
  assert (Hklen : (k < length pages)%nat) by (apply nth_error_Some; congruence).
  assert (Hdel : delete_page true (mkApp pages (Some k) cur (Some processed) cnt (Some i))
                 = mkApp (pop pages i) (Some k) cur (Some processed) cnt None).
  { unfold delete_page. cbn [listbox_selection scanned_pages].
    destruct (Nat.leb_spec (length pages) i); [lia | reflexivity]. }
  rewrite Hdel. cbn [selected_page_index scanned_pages].
  split; [reflexivity|]. split; [reflexivity|].
  assert (Hpk : nth_error (pop pages i) k = nth_error pages (S k)).
  { rewrite nth_error_pop. destruct (Nat.ltb_spec k i); [lia | reflexivity]. }
  assert (Hpk1 : nth_error (pop pages i) (k - 1) = Some edited).
  { rewrite nth_error_pop. destruct (Nat.ltb_spec (k - 1) i).
    - assert (k - 1 = i - 0 /\ i = k - 1)%nat as [_ E] by lia.
      exfalso. lia.
    - replace (S (k - 1)) with k by lia. exact Hk. }
  unfold update_selected_page.
  cbn [selected_page_index scanned_pages processed_image]. rewrite Hpk.
  destruct (nth_error pages (S k)) as [next|] eqn:Hnext;
    cbn [scanned_pages].
  - split; [|split].
    + rewrite nth_error_set_item.
      * destruct (Nat.eqb_spec (k - 1) k); [lia | exact Hpk1].
      * apply nth_error_Some. rewrite Hpk. congruence.
    + intros next' E. injection E as <-. rewrite nth_error_set_item.
      * now rewrite Nat.eqb_refl.
      * apply nth_error_Some. rewrite Hpk. congruence.
    + discriminate.
  - split; [exact Hpk1|]. split; [discriminate | reflexivity].
Qed.

End PagesFacts.

Module RescanFacts.
Import Pages.

Section Rescan.

Context {cv : Cv2}.

(** X14: viewing a stored page, processing it and applying the result
    replaces the image of that page by the black-and-white buffer that
    [process_document] returns for it, keeps its name and leaves every
    other page as it was; when [process_document] returns [None] nothing is
    stored. *)
Theorem rescan_page (app : App) (k : nat) (pg : page) (now : String.string) :
  listbox_selection app = Some k ->
  nth_error (scanned_pages app) k = Some pg ->
  (process_document (image pg) = None ->
     update_selected_page true now (auto_process (view_page app)) = view_page app)
  /\ (forall out, process_document (image pg) = Some out ->
        binary_image out
        /\ nth_error
             (scanned_pages (update_selected_page true now (auto_process (view_page app))))
             k
           = Some {| name := name pg; image := out; timestamp := now |}
        /\ (forall j, j <> k ->
              nth_error
                (scanned_pages
                   (update_selected_page true now (auto_process (view_page app)))) j
              = nth_error (scanned_pages app) j)).
Proof.
  destruct app as [pages sel cur proc cnt lsel].
  cbn [listbox_selection scanned_pages]. intros -> Hk.
  assert (Hklen : (k < length pages)%nat) by (apply nth_error_Some; congruence).
  unfold view_page. cbn [listbox_selection scanned_pages]. rewrite Hk.
  unfold auto_process. cbn [current_image]. split.
  - intros ->. unfold update_selected_page.
    cbn [selected_page_index scanned_pages processed_image]. now rewrite Hk.
  - intros out Hout. rewrite Hout. split; [exact (process_document_binary _ _ Hout)|].
    unfold update_selected_page.
    cbn [selected_page_index scanned_pages processed_image]. rewrite Hk.
    cbn [scanned_pages]. split.
    + rewrite PagesFacts.nth_error_set_item by exact Hklen. now rewrite Nat.eqb_refl.
    + intros j Hj. rewrite PagesFacts.nth_error_set_item by exact Hklen.
      destruct (Nat.eqb_spec j k); [contradiction | reflexivity].
Qed.

End Rescan.

End RescanFacts.

Lemma move_page_round_trip_witness :
  ((0 < 1 < length (Pages.scanned_pages (Pages.three_pages (Some 1%nat) None None)))%nat ->
     Pages.move_page_down (Pages.move_page_up (Pages.three_pages (Some 1%nat) None None))
     = Pages.three_pages (Some 1%nat) None None)
  /\ ((1 + 1 < length (Pages.scanned_pages (Pages.three_pages (Some 1%nat) None None)))%nat ->
        Pages.move_page_up (Pages.move_page_down (Pages.three_pages (Some 1%nat) None None))
        = Pages.three_pages (Some 1%nat) None None).
Proof.
  apply (PagesFacts.move_page_round_trip (Pages.three_pages (Some 1%nat) None None) 1).
  reflexivity.
Defined.

(** Moving the middle page up puts it first and selects it there. *)
Example move_page_up_run :
  Pages.move_page_up (Pages.three_pages (Some 1%nat) None None)
  = Pages.mkApp [Pages.page_b; Pages.page_a; Pages.page_c] None None None 3 (Some 0%nat).
Proof. reflexivity. Qed.

Lemma move_page_exchanges_neighbours_witness :
  (exists l1 a b l2,
     Pages.scanned_pages (Pages.three_pages (Some 1%nat) None None) = l1 ++ a :: b :: l2
     /\ S (length l1) = 1%nat
     /\ Pages.move_page_up (Pages.three_pages (Some 1%nat) None None)
        = Pages.mkApp (l1 ++ b :: a :: l2)
            (Pages.selected_page_index (Pages.three_pages (Some 1%nat) None None))
            (Pages.current_image (Pages.three_pages (Some 1%nat) None None))
            (Pages.processed_image (Pages.three_pages (Some 1%nat) None None))
            (Pages.page_counter (Pages.three_pages (Some 1%nat) None None))
            (Some (1 - 1)%nat))
  /\ (exists l1 a b l2,
        Pages.scanned_pages (Pages.three_pages (Some 1%nat) None None) = l1 ++ a :: b :: l2
        /\ length l1 = 1%nat
        /\ Pages.move_page_down (Pages.three_pages (Some 1%nat) None None)
           = Pages.mkApp (l1 ++ b :: a :: l2)
               (Pages.selected_page_index (Pages.three_pages (Some 1%nat) None None))
               (Pages.current_image (Pages.three_pages (Some 1%nat) None None))
               (Pages.processed_image (Pages.three_pages (Some 1%nat) None None))
               (Pages.page_counter (Pages.three_pages (Some 1%nat) None None))
               (Some (1 + 1)%nat))
  /\ Pages.move_page_up (Pages.three_pages (Some 0%nat) None None)
     = Pages.three_pages (Some 0%nat) None None
  /\ Pages.move_page_down (Pages.three_pages (Some 2%nat) None None)
     = Pages.three_pages (Some 2%nat) None None.
Proof.
  destruct (PagesFacts.move_page_exchanges_neighbours
              (Pages.three_pages (Some 1%nat) None None) 1 eq_refl)
    as (Hup & _ & Hdown & _).
  destruct (PagesFacts.move_page_exchanges_neighbours
              (Pages.three_pages (Some 0%nat) None None) 0 eq_refl)
    as (_ & Hfirst & _ & _).
  destruct (PagesFacts.move_page_exchanges_neighbours
              (Pages.three_pages (Some 2%nat) None None) 2 eq_refl)
    as (_ & _ & _ & Hlast).
  split; [apply Hup; simpl; lia|].
  split; [apply Hdown; simpl; lia|].
  split; [apply Hfirst; left; reflexivity|].
  apply Hlast. simpl. lia.
Defined.

(** Moving the middle page down puts it last and selects it there. *)
Example move_page_down_run :
  Pages.move_page_down (Pages.three_pages (Some 1%nat) None None)
  = Pages.mkApp [Pages.page_a; Pages.page_c; Pages.page_b] None None None 3 (Some 2%nat).
Proof. reflexivity. Qed.

Lemma delete_then_update_hits_next_page_witness :
  nth_error
    (Pages.scanned_pages
       (Pages.update_selected_page true Pages.later
          (Pages.delete_page true
             (Pages.three_pages (Some 0%nat) (Some 1%nat) (Some white_3x3)))))
    1
  = Some (Pages.mkPage (Pages.name Pages.page_c) white_3x3 Pages.later).
Proof.
  apply (PagesFacts.delete_then_update_hits_next_page
           (Pages.three_pages (Some 0%nat) (Some 1%nat) (Some white_3x3))
           0 1 white_3x3 Pages.page_b Pages.later
           eq_refl eq_refl ltac:(lia) eq_refl eq_refl).
  reflexivity.
Defined.

Lemma rescan_page_witness :
  (process_document (cv := Reference.cv) (Pages.image Pages.page_b) = None ->
     Pages.update_selected_page true Pages.later
       (Pages.auto_process (cv := Reference.cv)
          (Pages.view_page (Pages.three_pages (Some 1%nat) None None)))
     = Pages.view_page (Pages.three_pages (Some 1%nat) None None))
  /\ (forall out, process_document (cv := Reference.cv) (Pages.image Pages.page_b) = Some out ->
        binary_image out
        /\ nth_error
             (Pages.scanned_pages
                (Pages.update_selected_page true Pages.later
                   (Pages.auto_process (cv := Reference.cv)
                      (Pages.view_page (Pages.three_pages (Some 1%nat) None None)))))
             1
           = Some (Pages.mkPage (Pages.name Pages.page_b) out Pages.later)
        /\ (forall j, j <> 1%nat ->
              nth_error
                (Pages.scanned_pages
                   (Pages.update_selected_page true Pages.later
                      (Pages.auto_process (cv := Reference.cv)
                         (Pages.view_page (Pages.three_pages (Some 1%nat) None None))))) j
              = nth_error (Pages.scanned_pages (Pages.three_pages (Some 1%nat) None None)) j)).
Proof.
  apply (RescanFacts.rescan_page (cv := Reference.cv)
           (Pages.three_pages (Some 1%nat) None None) 1 Pages.page_b Pages.later);
    reflexivity.
Defined.

(** ** Settings of the PDF generator *)

Module PdfFacts.
Import PdfSettings.
Import String.

Section Settings.

Variables A4 letter : Q * Q.

Lemma lookup_sizes (size : String.string) (s : Q * Q) :
  lookup size (sizes A4 letter) = Some s ->
  (size = "A4"%string /\ s = A4) \/ (size = "Letter"%string /\ s = letter)
  \/ (size = "Legal"%string /\ s = (612, 1008)%Q).
Proof.
  unfold sizes, lookup.
  destruct (String.eqb_spec size "A4") as [->|_].
  { intros H. injection H as <-. auto. }
  destruct (String.eqb_spec size "Letter") as [->|_].
  { intros H. injection H as <-. auto. }
  destruct (String.eqb_spec size "Legal") as [->|_].
  { intros H. injection H as <-. auto. }
  discriminate.
Qed.

Lemma run_valid (self : PDFGenerator) (c : call) :
  valid A4 letter self -> valid A4 letter (run A4 letter self c).
Proof.
  intros (Hq0 & Hq1 & Hp). destruct c as [size|q]; simpl.
  - unfold set_page_size.
    destruct (lookup size (sizes A4 letter)) as [s|] eqn:E; simpl.
    + repeat split; try assumption.
      destruct (lookup_sizes size s E) as [[_ ->]|[[_ ->]|[_ ->]]]; auto.
    + repeat split; assumption.
  - unfold set_quality.
    destruct (Qle_bool 0 q) eqn:E0; destruct (Qle_bool q 100) eqn:E1; simpl;
      try (repeat split; assumption).
    apply Qle_bool_iff in E0. apply Qle_bool_iff in E1. repeat split; assumption.
Qed.

(** X15: whatever sequence of [set_quality] and [set_page_size] calls is
    made on a fresh generator, the JPEG quality stays within 0..100 and the
    page size is one of A4, Letter and Legal.  [set_quality] accepts exactly
    the values from 0 to 100 and [set_page_size] exactly the names 'A4',
    'Letter' and 'Legal'; a rejected call changes nothing. *)
Theorem pdf_settings_stay_valid (calls : list call) :
  valid A4 letter (fold_left (run A4 letter) calls (init A4))
  /\ (forall self q,
        (fst (set_quality self q) = true <-> (0 <= q)%Q /\ (q <= 100)%Q)
        /\ (fst (set_quality self q) = true -> quality (snd (set_quality self q)) = q)
        /\ (fst (set_quality self q) = false -> snd (set_quality self q) = self))
  /\ (forall self size,
        (fst (set_page_size A4 letter self size) = true <->
           size = "A4"%string \/ size = "Letter"%string \/ size = "Legal"%string)
        /\ (fst (set_page_size A4 letter self size) = false ->
              snd (set_page_size A4 letter self size) = self)).
Proof.
  split; [|split].
  - assert (H : forall self, valid A4 letter self -> valid A4 letter (fold_left (run A4 letter) calls self)).
    { induction calls as [|c calls' IH]; intros self Hself; simpl; [exact Hself|].
      apply IH. now apply run_valid. }
    apply H. unfold valid, init. simpl. repeat split.
    + unfold Qle. simpl. lia.
    + unfold Qle. simpl. lia.
    + now left.
  - intros self q. unfold set_quality.
    destruct (Qle_bool 0 q) eqn:E0; destruct (Qle_bool q 100) eqn:E1; simpl.
    + apply Qle_bool_iff in E0. apply Qle_bool_iff in E1.
      repeat split; auto. discriminate.
    + repeat split; try discriminate; auto.
      intros [_ H]. apply Qle_bool_iff in H. congruence.
    + repeat split; try discriminate; auto.
      intros [H _]. apply Qle_bool_iff in H. congruence.
    + repeat split; try discriminate; auto.
      intros [H _]. apply Qle_bool_iff in H. congruence.
  - intros self size. unfold set_page_size.
    destruct (lookup size (sizes A4 letter)) as [s|] eqn:E; simpl.
    + split; [|discriminate]. split; [|reflexivity]. intros _.
      destruct (lookup_sizes size s E) as [[-> _]|[[-> _]|[-> _]]]; auto.
    + split; [|reflexivity]. split; [discriminate|].
      intros [-> | [-> | ->]]; discriminate.
Qed.

End Settings.

End PdfFacts.

(** ** Point ordering and output size, continued *)

Module ShiftFacts.
Import Numpy.

Lemma argmin_from_shift (c : Z) (l : list Z) : forall bi bv i,
  argmin_from bi (bv + c) i (map (fun v => v + c) l) = argmin_from bi bv i l.
Proof.
  induction l as [|a l IH]; intros bi bv i; simpl; [reflexivity|].
  destruct (Z.ltb_spec (a + c) (bv + c)), (Z.ltb_spec a bv); try lia; apply IH.
Qed.

Lemma argmax_from_shift (c : Z) (l : list Z) : forall bi bv i,
  argmax_from bi (bv + c) i (map (fun v => v + c) l) = argmax_from bi bv i l.
Proof.
  induction l as [|a l IH]; intros bi bv i; simpl; [reflexivity|].
  destruct (Z.ltb_spec (bv + c) (a + c)), (Z.ltb_spec bv a); try lia; apply IH.
Qed.

Lemma argmin_shift (c : Z) (l : list Z) : argmin (map (fun v => v + c) l) = argmin l.
Proof. destruct l as [|a l]; simpl; [reflexivity|]. now rewrite argmin_from_shift. Qed.

Lemma argmax_shift (c : Z) (l : list Z) : argmax (map (fun v => v + c) l) = argmax l.
Proof. destruct l as [|a l]; simpl; [reflexivity|]. now rewrite argmax_from_shift. Qed.

End ShiftFacts.

Lemma index_map {A B : Type} (f : A -> B) (l : list A) (i : nat) :
  index (map f l) i = match index l i with Ok a => Ok (f a) | Raise e => Raise e end.
Proof.
  unfold index. rewrite nth_error_map. destruct (nth_error l i); reflexivity.
Qed.

Lemma dist2_translate (d a b : point) :
  dist2 (translate d a) (translate d b) = dist2 a b.
Proof. unfold dist2, translate, px, py. simpl. f_equal; f_equal; lia. Qed.

Lemma int_dist_translate (d a b : point) :
  int_dist (translate d a) (translate d b) = int_dist a b.
Proof.
  unfold int_dist. cbv zeta. rewrite dist2_translate.
  replace (px (translate d a) - px (translate d b)) with (px a - px b)
    by (unfold translate, px; simpl; lia).
  replace (py (translate d a) - py (translate d b)) with (py a - py b)
    by (unfold translate, py; simpl; lia).
  reflexivity.
Qed.

(** X16: the rectifier does not depend on where the document lies.
    Moving every point of a contour by the same vector moves the ordered
    corners by that vector, slot by slot, and leaves the computed output
    size unchanged. *)
Theorem order_points_translate (d : point) (pts : list point) :
  order_points (map (translate d) pts)
  = match order_points pts with
    | Ok r => Ok (translate_rect d r)
    | Raise e => Raise e
    end
  /\ (forall r, output_size (translate_rect d r) = output_size r).
Proof.
  split.
  - unfold order_points. cbv zeta.
    assert (Hs : map psum (map (translate d) pts)
                 = map (fun v => v + (px d + py d)) (map psum pts)).
    { rewrite !map_map. apply map_ext. intros p.
      unfold psum, translate, px, py. simpl. lia. }
    assert (Hd : map pdiff (map (translate d) pts)
                 = map (fun v => v + (py d - px d)) (map pdiff pts)).
    { rewrite !map_map. apply map_ext. intros p.
      unfold pdiff, translate, px, py. simpl. lia. }
    rewrite Hs, Hd, !ShiftFacts.argmin_shift, !ShiftFacts.argmax_shift.
    destruct (Numpy.argmin (map psum pts)) as [i0|]; cbn [bind]; [|reflexivity].
    rewrite index_map. destruct (index pts i0) as [p0|]; cbn [bind]; [|reflexivity].
    destruct (Numpy.argmax (map psum pts)) as [i2|]; cbn [bind]; [|reflexivity].
    rewrite index_map. destruct (index pts i2) as [p2|]; cbn [bind]; [|reflexivity].
    destruct (Numpy.argmin (map pdiff pts)) as [i1|]; cbn [bind]; [|reflexivity].
    rewrite index_map. destruct (index pts i1) as [p1|]; cbn [bind]; [|reflexivity].
    destruct (Numpy.argmax (map pdiff pts)) as [i3|]; cbn [bind]; [|reflexivity].
    rewrite index_map. destruct (index pts i3) as [p3|]; cbn [bind]; reflexivity.
  - intros r. unfold output_size, translate_rect. cbn [tl tr br bl].
    now rewrite !int_dist_translate.
Qed.

Lemma int_dist_horizontal (a b y : Z) : a <= b -> int_dist (b, y) (a, y) = b - a.
Proof.
  intros H. unfold int_dist, dist2, px, py. cbn [fst snd]. cbv zeta.
  replace ((b - a) ^ 2 + (y - y) ^ 2) with ((b - a) * (b - a)) by lia.
  destruct (_ && _) eqn:Hc; [|apply Z.sqrt_square; lia].
  apply andb_prop in Hc as [Hc _]. apply andb_prop in Hc as [Hc Hsq].
  apply andb_prop in Hc as [Hc _].
  rewrite Z.pow_2_r in Hsq. rewrite Float32Facts.round_holds by (exact Hsq || nia).
  apply Float32Facts.sqrt_trunc_square; [lia | exact Hc].
Qed.

Lemma int_dist_vertical (a b x : Z) : a <= b -> int_dist (x, a) (x, b) = b - a.
Proof.
  intros H. unfold int_dist, dist2, px, py. cbn [fst snd]. cbv zeta.
  replace ((x - x) ^ 2 + (a - b) ^ 2) with ((b - a) * (b - a)) by lia.
  destruct (_ && _) eqn:Hc; [|apply Z.sqrt_square; lia].
  apply andb_prop in Hc as [Hc Hsq]. apply andb_prop in Hc as [Hc _].
  apply andb_prop in Hc as [_ Hc].
  rewrite Z.pow_2_r in Hsq. replace ((a - b) * (a - b)) with ((b - a) * (b - a)) in Hsq by ring.
  rewrite Float32Facts.round_holds by (exact Hsq || nia).
  apply Float32Facts.sqrt_trunc_square; [lia|].
  rewrite <- Float32Facts.holds_opp. now replace (- (b - a)) with (a - b) by lia.
Qed.

(** X17: on the four corners of an upright rectangle, listed in any
    order, [order_points] names the corners correctly (top-left is the
    corner of least x and y, and so on clockwise), and the computed output
    size is the side lengths x1 - x0 and y1 - y0. *)
Theorem order_points_upright (x0 y0 x1 y1 : Z) (pts : list point) :
  x0 < x1 -> y0 < y1 ->
  Permutation (upright x0 y0 x1 y1) pts ->
  order_points pts
  = Ok {| tl := (x0, y0); tr := (x1, y0); br := (x1, y1); bl := (x0, y1) |}
  /\ output_size {| tl := (x0, y0); tr := (x1, y0); br := (x1, y1); bl := (x0, y1) |}
     = (x1 - x0, y1 - y0).
Proof.
  intros Hx Hy HP. split.
  - assert (Hne : pts <> []).
    { intros ->. apply Permutation_length in HP. discriminate. }
    destruct (order_points_slots pts Hne) as (r & Hr & Htl & Hbr & Htr & Hbl).
    rewrite Hr. f_equal.
    assert (Hin : forall p, In p pts ->
              p = (x0, y0) \/ p = (x1, y0) \/ p = (x1, y1) \/ p = (x0, y1)).
    { intros p Hp. apply (Permutation_in _ (Permutation_sym HP)) in Hp.
      simpl in Hp. intuition. }
    assert (Hall : forall p, In p (upright x0 y0 x1 y1) -> In p pts)
      by (intros p; apply Permutation_in; exact HP).
    assert (H00 := Hall (x0, y0) ltac:(simpl; auto)).
    assert (H10 := Hall (x1, y0) ltac:(simpl; auto)).
    assert (H11 := Hall (x1, y1) ltac:(simpl; auto)).
    assert (H01 := Hall (x0, y1) ltac:(simpl; auto)).
    apply first_min_is_min in Htl, Htr. apply first_max_is_max in Hbr, Hbl.
    destruct Htl as [Itl Mtl], Htr as [Itr Mtr], Hbr as [Ibr Mbr], Hbl as [Ibl Mbl].
    destruct r as [a b c e]. cbn [tl tr br bl] in *.
    assert (Ea : a = (x0, y0)).
    { specialize (Mtl _ H00). destruct (Hin a Itl) as [E|[E|[E|E]]]; subst a;
        unfold psum, px, py in Mtl; simpl in Mtl; try reflexivity; lia. }
    assert (Eb : b = (x1, y0)).
    { specialize (Mtr _ H10). destruct (Hin b Itr) as [E|[E|[E|E]]]; subst b;
        unfold pdiff, px, py in Mtr; simpl in Mtr; try reflexivity; lia. }
    assert (Ec : c = (x1, y1)).
    { specialize (Mbr _ H11). destruct (Hin c Ibr) as [E|[E|[E|E]]]; subst c;
        unfold psum, px, py in Mbr; simpl in Mbr; try reflexivity; lia. }
    assert (Ee : e = (x0, y1)).
    { specialize (Mbl _ H01). destruct (Hin e Ibl) as [E|[E|[E|E]]]; subst e;
        unfold pdiff, px, py in Mbl; simpl in Mbl; try reflexivity; lia. }
    now subst.
  - unfold output_size. cbn [tl tr br bl].
    rewrite !int_dist_horizontal by lia.
    assert (Hv1 : int_dist (x1, y0) (x1, y1) = y1 - y0) by (apply int_dist_vertical; lia).
    assert (Hv2 : int_dist (x0, y0) (x0, y1) = y1 - y0) by (apply int_dist_vertical; lia).
    rewrite Hv1, Hv2. f_equal; lia.
Qed.

Lemma order_points_upright_witness :
  order_points square10_shuffled
  = Ok {| tl := (0, 0); tr := (10, 0); br := (10, 10); bl := (0, 10) |}
  /\ output_size {| tl := (0, 0); tr := (10, 0); br := (10, 10); bl := (0, 10) |}
     = (10 - 0, 10 - 0).
Proof.
  apply (order_points_upright 0 0 10 10 square10_shuffled).
  - lia.
  - lia.
  - exact square10_shuffled_perm.
Defined.

Section GrayscaleEnhance.

Context {cv : Cv2}.

(** X18: unlike [process_document], [enhance_image] accepts a grayscale
    image: on a non-empty two-dimensional array it returns a
    two-dimensional black-and-white array of the same height and width. *)
Theorem enhance_image_grayscale (g : plane) :
  is_empty g = false ->
  exists out,
    enhance_image (Arr2 g) = Ok (Arr2 out)
    /\ rows out = rows g /\ cols out = cols g /\ binary_plane out.
Proof.
  intros He.
  destruct (adaptiveThreshold_shape g 255 11 2 He) as (t & Ht & Htr & Htc).
  assert (Het : is_empty t = false) by (now rewrite (same_shape_empty g t Htr Htc)).
  destruct (medianBlur_shape t 3 Het) as (d & Hd & Hdr & Hdc).
  exists d. unfold enhance_image. cbn [bind]. rewrite Ht. cbn [bind].
  rewrite Hd. cbn [bind]. split; [reflexivity|].
  split; [congruence|]. split; [congruence|].
  eapply medianBlur_binary; [|exact Hd]. eapply adaptiveThreshold_binary. exact Ht.
Qed.

End GrayscaleEnhance.

Lemma enhance_image_grayscale_witness :
  exists out,
    enhance_image (cv := Reference.cv) gray_frame = Ok (Arr2 out)
    /\ rows out = 2%nat /\ cols out = 2%nat /\ binary_plane out.
Proof.
  apply (enhance_image_grayscale (cv := Reference.cv) [ [10; 20]; [30; 40] ]).
  reflexivity.
Defined.

Module DuplicateFacts.
Import Pages.

Lemma pop_insert {A : Type} (x : A) (l : list A) : forall i,
  (i <= length l)%nat -> pop (insert l i x) i = l.
Proof.
  induction l as [|a l IH]; intros i Hi; simpl in Hi.
  - assert (i = 0%nat) as -> by lia. reflexivity.
  - destruct i as [|i]; simpl; [reflexivity|]. rewrite IH by lia. reflexivity.
Qed.

Lemma nth_error_insert {A : Type} (x : A) (l : list A) : forall i,
  (i <= length l)%nat ->
  nth_error (insert l i x) i = Some x
  /\ (forall j, (j < i)%nat -> nth_error (insert l i x) j = nth_error l j)
  /\ length (insert l i x) = S (length l).
Proof.
  induction l as [|a l IH]; intros i Hi; simpl in Hi.
  - assert (i = 0%nat) as -> by lia. simpl. repeat split. intros j Hj. lia.
  - destruct i as [|i]; simpl.
    + repeat split. intros j Hj. lia.
    + destruct (IH i) as (H1 & H2 & H3); [lia|]. repeat split.
      * exact H1.
      * intros [|j] Hj; simpl; [reflexivity | apply H2; lia].
      * now rewrite H3.
Qed.

(** X19: [duplicate_page] puts a copy directly after the selected page,
    with the same image and the name extended by " (Copia)", and drops the
    list-box selection; selecting that copy and deleting it gives back the
    page list as it was. *)
Theorem duplicate_then_delete_copy
  (app : App) (i : nat) (pg : page) (now : String.string) :
  listbox_selection app = Some i ->
  nth_error (scanned_pages app) i = Some pg ->
  nth_error (scanned_pages (duplicate_page now app)) i = Some pg
  /\ nth_error (scanned_pages (duplicate_page now app)) (S i)
     = Some {| name := String.append (name pg) copy_suffix; image := image pg;
               timestamp := now |}
  /\ length (scanned_pages (duplicate_page now app)) = S (length (scanned_pages app))
  /\ listbox_selection (duplicate_page now app) = None
  /\ scanned_pages (delete_page true (selection_set (duplicate_page now app) (S i)))
     = scanned_pages app.
Proof.
  destruct app as [pages sel cur proc cnt lsel].
  cbn [listbox_selection scanned_pages]. intros -> Hi.
  assert (Hlen : (S i <= length pages)%nat) by (apply nth_error_Some; congruence).
  unfold duplicate_page. cbn [listbox_selection scanned_pages]. rewrite Hi.
  unfold update_pages_list, with_pages. cbn [scanned_pages listbox_selection].
  rewrite Nat.add_1_r.
  destruct (nth_error_insert
              {| name := String.append (name pg) copy_suffix; image := image pg;
                 timestamp := now |} pages (S i) Hlen) as (H1 & H2 & H3).
  unfold copy_suffix in *.
  split; [rewrite H2 by lia; exact Hi|].
  split; [exact H1|]. split; [exact H3|]. split; [reflexivity|].
  unfold delete_page, selection_set. cbn [listbox_selection scanned_pages].
  rewrite H3. destruct (Nat.leb_spec (S (length pages)) (S i)); [lia|].
  unfold update_pages_list, with_pages. cbn [scanned_pages].
  now apply pop_insert.
Qed.

End DuplicateFacts.

Lemma duplicate_then_delete_copy_witness :
  nth_error (Pages.scanned_pages
               (Pages.duplicate_page Pages.later (Pages.three_pages (Some 1%nat) None None)))
    1 = Some Pages.page_b
  /\ nth_error (Pages.scanned_pages
                  (Pages.duplicate_page Pages.later (Pages.three_pages (Some 1%nat) None None)))
       2
     = Some (Pages.mkPage (String.append (Pages.name Pages.page_b) Pages.copy_suffix)
               (Pages.image Pages.page_b) Pages.later)
  /\ length (Pages.scanned_pages
               (Pages.duplicate_page Pages.later (Pages.three_pages (Some 1%nat) None None)))
     = 4%nat
  /\ Pages.listbox_selection
       (Pages.duplicate_page Pages.later (Pages.three_pages (Some 1%nat) None None))
     = None
  /\ Pages.scanned_pages
       (Pages.delete_page true
          (Pages.selection_set
             (Pages.duplicate_page Pages.later (Pages.three_pages (Some 1%nat) None None))
             2))
     = Pages.scanned_pages (Pages.three_pages (Some 1%nat) None None).
Proof.
  apply (DuplicateFacts.duplicate_then_delete_copy
           (Pages.three_pages (Some 1%nat) None None) 1 Pages.page_b Pages.later);
    reflexivity.
Defined.
